(** * chatbot-api: document chunking, similarity retrieval and chat orchestration

    A shallow embedding of the JavaScript sources

      - lib/openai.js              generateEmbedding, generateChatResponse
                                   (src/lib/openai.js, lines 1-75)
      - lib/document-processor.js  processFile, processDocumentChunks,
                                   splitTextIntoChunks
                                   (src/lib/openai.js, lines 75-231)
      - lib/storage.js             MongoStorage (src/unnamed/part_001)
      - routes.js                  the handlers of POST /api/documents,
                                   DELETE /api/documents/:id and
                                   POST /api/chat (src/unnamed/part_000)
      - models/                    Document, DocumentChunk

    and of the properties stated about them.  Line numbers in the comments
    are those of the file the function is in.

    Conventions.  A JavaScript string is the list of its code units, taken
    as 8-bit [ascii] characters.  A JavaScript number that holds a cursor,
    a size or a time is an integer of [Z]; a similarity score or a vector
    component is a rational of [Q].  A MongoDB collection is the list of
    its records in natural order, an identifier is a well-formed ObjectId,
    and the database calls succeed; the string a route passes for an
    identifier is cast by the driver, which can refuse it.  An embedding
    request that is started and not waited for can end at any later
    moment, or never.  The calls that leave the repository
    (the hosted model, the file parsers, [path.extname]) and the helper
    that is not among the sources (lib/utils.js) are parameters of the
    functions that make them.  A thrown error is a [Throw] value.  The
    [while] loop of the chunker is run with a bound on its iterations and
    says so when the bound is reached. *)

From Stdlib Require Import Ascii String DecimalString.
From Stdlib Require Import ZArith QArith List Bool Lia Lqa Sorted Permutation.
Import ListNotations.
Open Scope Z_scope.

(* ================================================================== *)
(** ** JavaScript string and array primitives *)
(* ================================================================== *)

Module JS.

Definition jsstring : Type := list ascii.

(** A string literal of the source. *)
Definition lit (s : string) : jsstring := list_ascii_of_string s.

(** The line feed, written [\n] in the source. *)
Definition LF : ascii := ascii_of_nat 10.

(** [s.length] *)
Definition strlen (t : jsstring) : Z := Z.of_nat (List.length t).

(** The clamping of an index argument to [0 .. hi], as done by
    [indexOf], [substring] and [slice]. *)
Definition clamp (n hi : Z) : Z := Z.min (Z.max n 0) hi.

Definition ascii_eqb (a b : ascii) : bool := Ascii.eqb a b.

(** [t] begins with [pat]. *)
Fixpoint startsWith (pat t : jsstring) : bool :=
  match pat, t with
  | [], _ => true
  | _ :: _, [] => false
  | p :: pat', c :: t' => ascii_eqb p c && startsWith pat' t'
  end.

(** Left-to-right search in the suffix [t] that begins at absolute
    index [k]; [-1] when [pat] does not occur. *)
Fixpoint scan (pat t : jsstring) (k : Z) : Z :=
  match t with
  | [] => if startsWith pat [] then k else -1
  | _ :: t' => if startsWith pat t then k else scan pat t' (k + 1)
  end.

(** [t.indexOf(pat, position)] *)
Definition indexOf (t pat : jsstring) (position : Z) : Z :=
  let start := clamp position (strlen t) in
  scan pat (skipn (Z.to_nat start) t) start.

(** [t.substring(s, e)]: both arguments are clamped to [0 .. length]
    and swapped when the first is the larger. *)
Definition substring (t : jsstring) (s e : Z) : jsstring :=
  let s' := clamp s (strlen t) in
  let e' := clamp e (strlen t) in
  let from := Z.min s' e' in
  let to := Z.max s' e' in
  firstn (Z.to_nat (to - from)) (skipn (Z.to_nat from) t).

(** [a.slice(s, e)] on an array: a negative argument counts from the
    end. *)
Definition slice {A : Type} (a : list A) (s e : Z) : list A :=
  let n := Z.of_nat (List.length a) in
  let rel (i : Z) := if i <? 0 then Z.max (n + i) 0 else Z.min i n in
  let from := rel s in
  let to := rel e in
  firstn (Z.to_nat (to - from)) (skipn (Z.to_nat from) a).

(** White space of [String.prototype.trim] among the 8-bit code units. *)
Definition isWhiteSpace (c : ascii) : bool :=
  let n := nat_of_ascii c in
  ((9 <=? n) && (n <=? 13))%nat || (n =? 32)%nat || (n =? 160)%nat.

Fixpoint trimStart (t : jsstring) : jsstring :=
  match t with
  | [] => []
  | c :: t' => if isWhiteSpace c then trimStart t' else t
  end.

Definition trim (t : jsstring) : jsstring :=
  rev (trimStart (rev (trimStart t))).

Definition toLowerChar (c : ascii) : ascii :=
  let n := nat_of_ascii c in
  if ((65 <=? n) && (n <=? 90))%nat then ascii_of_nat (n + 32)
  else if ((192 <=? n) && (n <=? 222) && negb (n =? 215))%nat
       then ascii_of_nat (n + 32)
  else c.

Definition toUpperChar (c : ascii) : ascii :=
  let n := nat_of_ascii c in
  if ((97 <=? n) && (n <=? 122))%nat then ascii_of_nat (n - 32)
  else if ((224 <=? n) && (n <=? 254) && negb (n =? 247))%nat
       then ascii_of_nat (n - 32)
  else c.

Definition toLowerCase (t : jsstring) : jsstring := map toLowerChar t.
Definition toUpperCase (t : jsstring) : jsstring := map toUpperChar t.

Definition jsstring_eqb (a b : jsstring) : bool :=
  if list_eq_dec ascii_dec a b then true else false.

(** The decimal text of a non-negative integer, as a template literal
    prints it. *)
Definition numberToString (n : nat) : jsstring :=
  lit (NilEmpty.string_of_uint (Nat.to_uint n)).

End JS.

Import JS.

(** What a loop that is run with a bound on its number of iterations
    gives: the value the source returns, or the value built so far when
    the bound is reached first. *)
Inductive outcome (A : Type) : Type :=
| Returned (a : A)
| OutOfFuel (sofar : A).
Arguments Returned {A} a.
Arguments OutOfFuel {A} sofar.

Definition emitted {A : Type} (o : outcome A) : A :=
  match o with Returned a => a | OutOfFuel a => a end.

Definition onChunks {A : Type} (f : A -> A) (o : outcome A) : outcome A :=
  match o with
  | Returned a => Returned (f a)
  | OutOfFuel a => OutOfFuel (f a)
  end.

(* ================================================================== *)
(** ** lib/document-processor.js: the chunker *)
(* ================================================================== *)

Module Chunker.

Definition paragraphBreak : jsstring := [LF; LF].
Definition sentenceBreak : jsstring := ["."%char; " "%char].

(** Lines 196-208: the end cursor after the paragraph and sentence
    adjustment. *)
Definition adjustEnd (text : jsstring) (endPos : Z) : Z :=
  if endPos <? strlen text then
    let paragraphEnd := indexOf text paragraphBreak (endPos - 100) in
    if negb (paragraphEnd =? -1) && (paragraphEnd <? endPos + 100) then
      paragraphEnd
    else
      let sentenceEnd := indexOf text sentenceBreak (endPos - 100) in
      if negb (sentenceEnd =? -1) && (sentenceEnd <? endPos + 50) then
        sentenceEnd + 1
      else endPos
  else endPos.

(** Lines 193-211: the end cursor of the chunk that starts at
    [startPos]. *)
Definition chunkEnd (text : jsstring) (chunkSize startPos : Z) : Z :=
  Z.min (adjustEnd text (startPos + chunkSize)) (strlen text).

(** Line 214. *)
Definition chunkAt (text : jsstring) (chunkSize startPos : Z) : jsstring :=
  substring text startPos (chunkEnd text chunkSize startPos).

(** The [while] loop of lines 191-224, one iteration per unit of fuel. *)
Fixpoint splitLoop (fuel : nat) (text : jsstring) (chunkSize overlap : Z)
         (startPos : Z) (chunks : list jsstring) : outcome (list jsstring) :=
  if startPos <? strlen text then
    match fuel with
    | O => OutOfFuel chunks
    | S fuel' =>
        let endPos := chunkEnd text chunkSize startPos in
        let chunk := substring text startPos endPos in
        let chunks := chunks ++ [chunk] in
        let startPos := endPos - overlap in
        if (startPos >=? strlen text) || (endPos =? strlen text) then
          Returned chunks
        else splitLoop fuel' text chunkSize overlap startPos chunks
    end
  else Returned chunks.

Definition splitTextIntoChunks (fuel : nat) (text : jsstring)
           (chunkSize overlap : Z) : outcome (list jsstring) :=
  splitLoop fuel text chunkSize overlap 0 [].

End Chunker.

Import Chunker.


(* ================================================================== *)
(** ** models/: the stored entities *)
(* ================================================================== *)

Definition ObjectId : Type := N.

(** An embedding vector.  The components are the numbers the hosted
    model returns, taken as rationals. *)
Definition vector : Type := list Q.

Module Document.
Record t : Type := mk
  { _id : ObjectId;
    name : jsstring;
    type : jsstring;
    size : Z;
    createdAt : Z }.
End Document.

Module DocumentChunk.
Record t : Type := mk
  { _id : ObjectId;
    documentId : ObjectId;
    content : jsstring;
    embedding : option vector;      (* [default: null] *)
    createdAt : Z }.
End DocumentChunk.

Inductive Role : Type := system | user | assistant.

(** Modelled from the spec: models/Message.js is not among the sources.
    A Message is a turn of the single conversation with a role, a text
    content and a creation timestamp. *)
Module Message.
Record t : Type := mk
  { role : Role;
    content : jsstring;
    createdAt : Z }.
End Message.

(** The three collections. *)
Record DB : Type := mkDB
  { documents : list Document.t;
    chunks : list DocumentChunk.t;
    messages : list Message.t }.

(** A thrown [Error] carries its message. *)
Inductive result (A : Type) : Type :=
| Ok (a : A)
| Throw (message : jsstring).
Arguments Ok {A} a.
Arguments Throw {A} message.

(** [Array.prototype.sort] is a stable sort; on a comparator that is a
    consistent order every stable sort gives the same array, computed
    here by insertion.  The sort of a query is computed by the same
    insertion: MongoDB fixes no order among records with equal keys, and
    the statements about queries use of their results only that they are
    sorted and hold the same records.  [after a b] says that [a] has to
    come after [b]. *)
Section StableSort.
Context {A : Type} (after : A -> A -> bool).

Fixpoint insertSorted (x : A) (l : list A) : list A :=
  match l with
  | [] => [x]
  | y :: l' => if after x y then y :: insertSorted x l' else x :: l
  end.

Fixpoint stableSort (l : list A) : list A :=
  match l with
  | [] => []
  | x :: l' => insertSorted x (stableSort l')
  end.
End StableSort.

(** [a.sort(compareFn)]: [a] goes after [b] when [compareFn(a, b) > 0]. *)
Definition Array_sort {A : Type} (compareFn : A -> A -> Q) (a : list A) : list A :=
  stableSort (fun x y => negb (Qle_bool (compareFn x y) 0)) a.

(* ================================================================== *)
(** ** lib/storage.js: MongoStorage *)
(* ================================================================== *)

Module MongoStorage.

(** A chunk after [populate('documentId', 'name')]: the reference is
    replaced by the identifier and the name of the owning document, or
    by [null] when there is none. *)
Record PopulatedChunk : Type := mkPopulated
  { chunk : DocumentChunk.t;
    document : option (ObjectId * jsstring) }.

Definition findById (id : ObjectId) (docs : list Document.t) : option Document.t :=
  find (fun d => N.eqb (Document._id d) id) docs.

(** The collection without the first document whose identifier is [id]. *)
Fixpoint removeById (id : ObjectId) (docs : list Document.t) : list Document.t :=
  match docs with
  | [] => []
  | d :: docs' => if N.eqb (Document._id d) id then docs' else d :: removeById id docs'
  end.

(** [DocumentChunk.deleteMany({ documentId: id })] *)
Definition deleteMany (id : ObjectId) (cs : list DocumentChunk.t) : list DocumentChunk.t :=
  filter (fun c => negb (N.eqb (DocumentChunk.documentId c) id)) cs.

(** Lines 66-78. *)
Definition deleteDocument (id : ObjectId) (db : DB) : bool * DB :=
  match findById id (documents db) with
  | None => (false, db)
  | Some _ =>
      (true,
       {| documents := removeById id (documents db);
          chunks := deleteMany id (chunks db);
          messages := messages db |})
  end.

Definition hasEmbedding (c : DocumentChunk.t) : bool :=
  match DocumentChunk.embedding c with Some _ => true | None => false end.

Definition populate (db : DB) (c : DocumentChunk.t) : PopulatedChunk :=
  {| chunk := c;
     document :=
       match findById (DocumentChunk.documentId c) (documents db) with
       | Some d => Some (Document._id d, Document.name d)
       | None => None
       end |}.

(** [DocumentChunk.find({ embedding: { $ne: null } }).populate(...)] *)
Definition findEmbedded (db : DB) : list PopulatedChunk :=
  map (populate db) (filter hasEmbedding (chunks db)).

(** The stored vector of a chunk the query has selected. *)
Definition storedVector (c : PopulatedChunk) : vector :=
  match DocumentChunk.embedding (chunk c) with Some v => v | None => [] end.

Section Search.
(** lib/utils.js is not among the sources: the similarity of two
    vectors is a parameter of the search. *)
Variable calculateCosineSimilarity : vector -> vector -> Q.

Definition similarityTo (embedding : vector) (c : PopulatedChunk) : Q :=
  calculateCosineSimilarity embedding (storedVector c).

(** Lines 119-138. *)
Definition searchSimilarChunks (db : DB) (embedding : vector) (limit : Z)
  : list PopulatedChunk :=
  let chunks := findEmbedded db in
  let chunksWithScores :=
    map (fun chunk => (chunk, similarityTo embedding chunk)) chunks in
  let sorted := Array_sort (fun a b => snd b - snd a)%Q chunksWithScores in
  map fst (slice sorted 0 limit).
End Search.

(** Lines 145-148; [now] is the clock at the time of the save. *)
Definition createMessage (role : Role) (content : jsstring) (now : Z) (db : DB)
  : Message.t * DB :=
  let newMessage := Message.mk role content now in
  (newMessage,
   {| documents := documents db;
      chunks := chunks db;
      messages := messages db ++ [newMessage] |}).

(** Lines 154-156: [Message.find().sort({ createdAt: 1 })]. *)
Definition getMessages (db : DB) : list Message.t :=
  stableSort (fun a b => Message.createdAt b <? Message.createdAt a) (messages db).

(** Lines 162-164. *)
Definition clearMessages (db : DB) : DB :=
  {| documents := documents db; chunks := chunks db; messages := [] |}.

(** Lines 39-42; [id] is the identifier the driver gives the new record
    and [now] the clock at the save. *)
Definition createDocument (id : ObjectId) (name type : jsstring) (size now : Z)
           (db : DB) : Document.t * DB :=
  let newDocument := Document.mk id name type size now in
  (newDocument,
   {| documents := documents db ++ [newDocument];
      chunks := chunks db;
      messages := messages db |}).

(** Lines 48-50: [Document.find().sort({ createdAt: -1 })]. *)
Definition getDocuments (db : DB) : list Document.t :=
  stableSort (fun a b => Document.createdAt a <? Document.createdAt b) (documents db).

(** Lines 57-59. *)
Definition getDocument (id : ObjectId) (db : DB) : option Document.t :=
  findById id (documents db).

(** Lines 85-88. *)
Definition createDocumentChunk (id documentId : ObjectId) (content : jsstring)
           (embedding : option vector) (now : Z) (db : DB) : DocumentChunk.t * DB :=
  let newChunk := DocumentChunk.mk id documentId content embedding now in
  (newChunk,
   {| documents := documents db;
      chunks := chunks db ++ [newChunk];
      messages := messages db |}).

(** Lines 95-97: [DocumentChunk.find({ documentId })]. *)
Definition getDocumentChunks (documentId : ObjectId) (db : DB) : list DocumentChunk.t :=
  filter (fun c => N.eqb (DocumentChunk.documentId c) documentId) (chunks db).

(** The update of the embedding of the first chunk whose identifier is
    [id]: the chunk as it is afterwards, or nothing when there is none,
    and the collection afterwards. *)
Fixpoint setEmbedding (id : ObjectId) (embedding : vector)
         (cs : list DocumentChunk.t) : option DocumentChunk.t * list DocumentChunk.t :=
  match cs with
  | [] => (None, [])
  | c :: cs' =>
      if N.eqb (DocumentChunk._id c) id then
        let updated :=
          DocumentChunk.mk (DocumentChunk._id c) (DocumentChunk.documentId c)
            (DocumentChunk.content c) (Some embedding) (DocumentChunk.createdAt c) in
        (Some updated, updated :: cs')
      else
        (fst (setEmbedding id embedding cs'), c :: snd (setEmbedding id embedding cs'))
  end.

(** Lines 105-111: [findByIdAndUpdate(id, { embedding }, { new: true })]. *)
Definition updateDocumentChunkEmbedding (id : ObjectId) (embedding : vector) (db : DB)
  : option DocumentChunk.t * DB :=
  (fst (setEmbedding id embedding (chunks db)),
   {| documents := documents db;
      chunks := snd (setEmbedding id embedding (chunks db));
      messages := messages db |}).

Section RouteParameter.
(** The cast of a string to an identifier that the driver makes in
    [findByIdAndDelete]; a [Throw] is its [CastError]. *)
Variable castObjectId : jsstring -> result ObjectId.

(** Lines 66-78, on the string the route passes. *)
Definition deleteDocumentParam (id : jsstring) (db : DB) : result bool * DB :=
  match castObjectId id with
  | Throw error => (Throw error, db)
  | Ok oid => (Ok (fst (deleteDocument oid db)), snd (deleteDocument oid db))
  end.
End RouteParameter.

End MongoStorage.

(* ================================================================== *)
(** ** lib/openai.js *)
(* ================================================================== *)

Module OpenAI.

(** An entry of the [messages] array of a completion request. *)
Record ChatMessage : Type := mkChat
  { role : Role;
    content : jsstring }.

Record CompletionRequest : Type := mkRequest
  { model : jsstring;
    messages : list ChatMessage;
    temperature : Q;
    max_tokens : Z }.

Definition groundedInstruction : jsstring :=
  lit "IMPORTANT: You are Stephen, a document-based support assistant. You must ONLY answer based on the document excerpts provided below. If the answer cannot be found in these excerpts, explicitly state that you cannot answer based on the available documents. Do NOT use any external knowledge."
  ++ [LF; LF].

Definition noDocumentsInstruction : jsstring :=
  lit "You are Stephen, a document-based support assistant. You can ONLY answer questions based on uploaded document content. If no relevant documents have been uploaded or if the documents don't contain the necessary information, politely explain that you can only provide answers based on uploaded documents and cannot use external knowledge.".

(** Line 43: the text added for the chunk of index [i]. *)
Definition excerpt (i : nat) (chunkContent : jsstring) : jsstring :=
  lit "Document excerpt " ++ numberToString (i + 1) ++ lit ":" ++ [LF]
  ++ chunkContent ++ [LF; LF].

(** Lines 42-44: the [forEach] from index [i] on. *)
Fixpoint appendExcerpts (contextChunks : list MongoStorage.PopulatedChunk)
         (i : nat) (contextText : jsstring) : jsstring :=
  match contextChunks with
  | [] => contextText
  | c :: rest =>
      appendExcerpts rest (S i)
        (contextText ++ excerpt i (DocumentChunk.content (MongoStorage.chunk c)))
  end.

(** Lines 37-47. *)
Definition contextText (contextChunks : list MongoStorage.PopulatedChunk) : jsstring :=
  if (0 <? List.length contextChunks)%nat then
    appendExcerpts contextChunks 0 groundedInstruction
  else noDocumentsInstruction.

(** Lines 49-63: the request sent to the completion endpoint. *)
Definition completionRequest (messages : list ChatMessage)
           (contextChunks : list MongoStorage.PopulatedChunk) : CompletionRequest :=
  let systemMessage := mkChat system (contextText contextChunks) in
  let formattedMessages := systemMessage :: messages in
  {| model := lit "gpt-4o";
     messages := formattedMessages;
     temperature := 3 # 10;
     max_tokens := 1000 |}.

Section Client.
(** The hosted endpoints; [None] is a call that rejects. *)
Variable embeddings_create : jsstring -> option vector.
Variable chat_completions_create : CompletionRequest -> option jsstring.

(** Lines 14-26. *)
Definition generateEmbedding (text : jsstring) : result vector :=
  match embeddings_create text with
  | Some v => Ok v
  | None => Throw (lit "Failed to generate embedding")
  end.

(** Lines 34-70; the value is the content of the returned message. *)
Definition generateChatResponse (messages : list ChatMessage)
           (contextChunks : list MongoStorage.PopulatedChunk) : result jsstring :=
  match chat_completions_create (completionRequest messages contextChunks) with
  | Some reply => Ok reply
  | None => Throw (lit "Failed to generate response")
  end.
End Client.

End OpenAI.

(* ================================================================== *)
(** ** lib/document-processor.js: upload processing *)
(* ================================================================== *)

Module DocumentProcessor.

(** The file object handed over by the upload middleware. *)
Record UploadedFile : Type := mkFile
  { path : jsstring;
    originalname : jsstring;
    size : Z }.

(** The upload directory: paths with the bytes stored under them. *)
Definition FileSystem : Type := list (jsstring * list ascii).

Definition existsSync (p : jsstring) (fs : FileSystem) : bool :=
  existsb (fun entry => jsstring_eqb (fst entry) p) fs.

Definition readFileSync (p : jsstring) (fs : FileSystem) : result (list ascii) :=
  match find (fun entry => jsstring_eqb (fst entry) p) fs with
  | Some entry => Ok (snd entry)
  | None => Throw (lit "ENOENT: no such file or directory, open '" ++ p ++ lit "'")
  end.

Definition unlinkSync (p : jsstring) (fs : FileSystem) : FileSystem :=
  filter (fun entry => negb (jsstring_eqb (fst entry) p)) fs.

(** The state the upload works on.  [nextId] is the next identifier the
    driver hands out; [pendingEmbeddings] holds the embedding requests
    that were started and not waited for (lines 165-173). *)
Record World : Type := mkWorld
  { db : DB;
    fs : FileSystem;
    nextId : ObjectId;
    pendingEmbeddings : list (ObjectId * jsstring) }.

(** Lines 151-177, for one chunk text. *)
Definition storeChunk (documentId : ObjectId) (now : Z) (w : World)
           (chunkText : jsstring) : World :=
  match trim chunkText with
  | [] => w
  | _ :: _ =>
      let chunk := DocumentChunk.mk (nextId w) documentId chunkText None now in
      {| db := {| documents := documents (db w);
                  chunks := chunks (db w) ++ [chunk];
                  messages := messages (db w) |};
         fs := fs w;
         nextId := N.succ (nextId w);
         pendingEmbeddings := pendingEmbeddings w ++ [(nextId w, chunkText)] |}
  end.

(** Lines 144-178.  The loop of the chunker is given one iteration per
    character of the text and one more, which is enough for the sizes
    used here ([production_chunking_returns] below).  The state given is
    the one in which none of the requests started has ended yet; a
    request that ends, during the loop or after it, changes the state by
    [settleEmbedding] below, which touches nothing but the embedding of
    the chunk it was started for.  [processDocumentChunksDuring] below is
    the loop with the requests that end while it goes on. *)
Definition processDocumentChunks (documentId : ObjectId) (text : jsstring)
           (now : Z) (w : World) : World :=
  let chunkSize := 1000 in
  let overlap := 200 in
  let chunks :=
    emitted (splitTextIntoChunks (S (List.length text)) text chunkSize overlap) in
  fold_left (storeChunk documentId now) chunks w.

Section Extraction.
(** The library calls of the extraction: [path.extname], [pdf-parse],
    [mammoth.extractRawText] and the decoding of a buffer as UTF-8. *)
Variable extname : jsstring -> jsstring.
Variable pdfParse : list ascii -> result jsstring.
Variable extractRawText : list ascii -> result jsstring.
Variable utf8 : list ascii -> jsstring.

(** Lines 97-109. *)
Definition extractText (fileExtension : jsstring) (file : UploadedFile)
           (files : FileSystem) : result jsstring :=
  if jsstring_eqb fileExtension (lit ".pdf") then
    match readFileSync (path file) files with
    | Ok dataBuffer => pdfParse dataBuffer
    | Throw e => Throw e
    end
  else if jsstring_eqb fileExtension (lit ".docx") then
    match readFileSync (path file) files with
    | Ok dataBuffer => extractRawText dataBuffer
    | Throw e => Throw e
    end
  else if jsstring_eqb fileExtension (lit ".txt")
          || jsstring_eqb fileExtension (lit ".md") then
    match readFileSync (path file) files with
    | Ok dataBuffer => Ok (utf8 dataBuffer)
    | Throw e => Throw e
    end
  else Throw (lit "Unsupported file type").

(** Lines 89-137. *)
Definition processFile (file : UploadedFile) (originalName : jsstring)
           (now : Z) (w : World) : result Document.t * World :=
  let fileExtension := toLowerCase (extname originalName) in
  match extractText fileExtension file (fs w) with
  | Ok text =>
      let document :=
        Document.mk (nextId w) originalName
          (toUpperCase (substring fileExtension 1 (strlen fileExtension)))
          (size file) now in
      let saved :=
        {| db := {| documents := documents (db w) ++ [document];
                    chunks := chunks (db w);
                    messages := messages (db w) |};
           fs := fs w;
           nextId := N.succ (nextId w);
           pendingEmbeddings := pendingEmbeddings w |} in
      let chunked := processDocumentChunks (Document._id document) text now saved in
      (Ok document,
       {| db := db chunked;
          fs := unlinkSync (path file) (fs chunked);
          nextId := nextId chunked;
          pendingEmbeddings := pendingEmbeddings chunked |})
  | Throw error =>
      (Throw error,
       {| db := db w;
          fs := match path file with
                | [] => fs w
                | _ :: _ =>
                    if existsSync (path file) (fs w)
                    then unlinkSync (path file) (fs w) else fs w
                end;
          nextId := nextId w;
          pendingEmbeddings := pendingEmbeddings w |})
  end.
End Extraction.

(** Lines 165-173: the end of one embedding request that was started for
    the chunk [fst task] with the text [snd task].  On success the vector
    is saved onto that chunk; a failure is logged and changes nothing. *)
Definition settleEmbedding (embeddings_create : jsstring -> option vector)
           (task : ObjectId * jsstring) (database : DB) : DB :=
  match OpenAI.generateEmbedding embeddings_create (snd task) with
  | Ok embedding =>
      {| documents := documents database;
         chunks := snd (MongoStorage.setEmbedding (fst task) embedding (chunks database));
         messages := messages database |}
  | Throw _ => database
  end.

(** The end of the requests at the given positions of
    [pendingEmbeddings], one after the other.  Only a request that was
    started can end: a position that holds no request stands for
    nothing. *)
Definition settleStarted (embeddings_create : jsstring -> option vector)
           (positions : list nat) (w : World) : World :=
  fold_left
    (fun w position =>
       match nth_error (pendingEmbeddings w) position with
       | Some task =>
           {| db := settleEmbedding embeddings_create task (db w);
              fs := fs w;
              nextId := nextId w;
              pendingEmbeddings := pendingEmbeddings w |}
       | None => w
       end)
    positions w.

(** Lines 150-177 with the requests that end while the loop goes on.  The
    loop waits for the save of every chunk it stores (line 162), and the
    answers of the requests started before are handled meanwhile.
    [ending] gives, for each chunk stored in turn, the requests that end
    after the request of this chunk was started and before the next
    chunk is stored; a blank chunk text is skipped without a wait. *)
Fixpoint storeChunksDuring (embeddings_create : jsstring -> option vector)
         (documentId : ObjectId) (now : Z) (chunkTexts : list jsstring)
         (ending : list (list nat)) (w : World) : World :=
  match chunkTexts with
  | [] => w
  | chunkText :: rest =>
      match trim chunkText with
      | [] => storeChunksDuring embeddings_create documentId now rest ending w
      | _ :: _ =>
          storeChunksDuring embeddings_create documentId now rest (tl ending)
            (settleStarted embeddings_create (hd [] ending)
               (storeChunk documentId now w chunkText))
      end
  end.

Section Interleaving.
Variable embeddings_create : jsstring -> option vector.
Variable extname : jsstring -> jsstring.
Variable pdfParse : list ascii -> result jsstring.
Variable extractRawText : list ascii -> result jsstring.
Variable utf8 : list ascii -> jsstring.

(** Lines 144-178, with the requests that end during the loop. *)
Definition processDocumentChunksDuring (ending : list (list nat))
           (documentId : ObjectId) (text : jsstring) (now : Z) (w : World) : World :=
  let chunkSize := 1000 in
  let overlap := 200 in
  let chunks :=
    emitted (splitTextIntoChunks (S (List.length text)) text chunkSize overlap) in
  storeChunksDuring embeddings_create documentId now chunks ending w.

(** Lines 89-137, with the requests that end during the loop of
    [processDocumentChunks]. *)
Definition processFileDuring (ending : list (list nat))
           (file : UploadedFile) (originalName : jsstring)
           (now : Z) (w : World) : result Document.t * World :=
  let fileExtension := toLowerCase (extname originalName) in
  match extractText pdfParse extractRawText utf8 fileExtension file (fs w) with
  | Ok text =>
      let document :=
        Document.mk (nextId w) originalName
          (toUpperCase (substring fileExtension 1 (strlen fileExtension)))
          (size file) now in
      let saved :=
        {| db := {| documents := documents (db w) ++ [document];
                    chunks := chunks (db w);
                    messages := messages (db w) |};
           fs := fs w;
           nextId := N.succ (nextId w);
           pendingEmbeddings := pendingEmbeddings w |} in
      let chunked :=
        processDocumentChunksDuring ending (Document._id document) text now saved in
      (Ok document,
       {| db := db chunked;
          fs := unlinkSync (path file) (fs chunked);
          nextId := nextId chunked;
          pendingEmbeddings := pendingEmbeddings chunked |})
  | Throw error =>
      (Throw error,
       {| db := db w;
          fs := match path file with
                | [] => fs w
                | _ :: _ =>
                    if existsSync (path file) (fs w)
                    then unlinkSync (path file) (fs w) else fs w
                end;
          nextId := nextId w;
          pendingEmbeddings := pendingEmbeddings w |})
  end.
End Interleaving.

End DocumentProcessor.

(* ================================================================== *)
(** ** routes.js *)
(* ================================================================== *)

Module Routes.

Inductive Body : Type :=
| ErrorBody (error : jsstring)
| DocumentBody (document : Document.t)
| ChatBody (message : Message.t) (chunkCount : Z)
| NoBody.

Record Response : Type := mkResponse
  { status : Z;
    body : Body }.

(** What a chat turn does that can be seen from outside, in order. *)
Inductive Event : Type :=
| SavedMessage (m : Message.t)
| EmbeddingCall (text : jsstring)
| CompletionCall (request : OpenAI.CompletionRequest).

Section Upload.
Variable extname : jsstring -> jsstring.
Variable pdfParse : list ascii -> result jsstring.
Variable extractRawText : list ascii -> result jsstring.
Variable utf8 : list ascii -> jsstring.

(** Lines 51-63: [POST /api/documents]. *)
Definition postDocuments (file : option DocumentProcessor.UploadedFile)
           (now : Z) (w : DocumentProcessor.World)
  : Response * DocumentProcessor.World :=
  match file with
  | None => (mkResponse 400 (ErrorBody (lit "No file uploaded")), w)
  | Some f =>
      match DocumentProcessor.processFile extname pdfParse extractRawText utf8
              f (DocumentProcessor.originalname f) now w with
      | (Ok document, w') => (mkResponse 201 (DocumentBody document), w')
      | (Throw _, w') =>
          (mkResponse 500 (ErrorBody (lit "Failed to upload document")), w')
      end
  end.
End Upload.

Section Chat.
Variable calculateCosineSimilarity : vector -> vector -> Q.
Variable embeddings_create : jsstring -> option vector.
Variable chat_completions_create : OpenAI.CompletionRequest -> option jsstring.

Definition formatMessage (msg : Message.t) : OpenAI.ChatMessage :=
  OpenAI.mkChat (Message.role msg) (Message.content msg).

(** Lines 92-143: [POST /api/chat].  [nowUser] and [nowAssistant] are
    the clock at the two saves. *)
Definition postChat (content : jsstring) (nowUser nowAssistant : Z) (db : DB)
  : Response * DB * list Event :=
  match content with
  | [] => (mkResponse 400 (ErrorBody (lit "Message content is required")), db, [])
  | _ :: _ =>
      let (userMessage, db1) := MongoStorage.createMessage user content nowUser db in
      let log := [SavedMessage userMessage; EmbeddingCall content] in
      match OpenAI.generateEmbedding embeddings_create content with
      | Throw _ =>
          (mkResponse 500 (ErrorBody (lit "Failed to process chat message")), db1, log)
      | Ok embedding =>
          let similarChunks :=
            MongoStorage.searchSimilarChunks calculateCosineSimilarity
              db1 embedding 5 in
          let messages := MongoStorage.getMessages db1 in
          let formattedMessages := map formatMessage messages in
          let log :=
            log ++ [CompletionCall
                      (OpenAI.completionRequest formattedMessages similarChunks)] in
          match OpenAI.generateChatResponse chat_completions_create
                  formattedMessages similarChunks with
          | Throw _ =>
              (mkResponse 500 (ErrorBody (lit "Failed to process chat message")),
               db1, log)
          | Ok reply =>
              let (savedMessage, db2) :=
                MongoStorage.createMessage assistant reply nowAssistant db1 in
              (mkResponse 200
                 (ChatBody savedMessage (Z.of_nat (List.length similarChunks))),
               db2, log ++ [SavedMessage savedMessage])
          end
      end
  end.
End Chat.

(** Lines 75-89: [DELETE /api/documents/:id]. *)
Definition deleteDocumentsId (id : ObjectId) (db : DB) : Response * DB :=
  let (success, db') := MongoStorage.deleteDocument id db in
  if success then (mkResponse 204 NoBody, db')
  else (mkResponse 404 (ErrorBody (lit "Document not found")), db').

(** Lines 75-89, with [req.params.id] as it comes. *)
Definition deleteDocumentsParam (castObjectId : jsstring -> result ObjectId)
           (id : jsstring) (db : DB) : Response * DB :=
  match MongoStorage.deleteDocumentParam castObjectId id db with
  | (Ok true, db') => (mkResponse 204 NoBody, db')
  | (Ok false, db') => (mkResponse 404 (ErrorBody (lit "Document not found")), db')
  | (Throw _, db') =>
      (mkResponse 500 (ErrorBody (lit "Failed to delete document")), db')
  end.

End Routes.

(* ================================================================== *)
(** ** Vocabulary of the statements *)
(* ================================================================== *)

(** [pat] occurs in [text] at index [p]. *)
Definition occursAt (pat text : jsstring) (p : Z) : Prop :=
  0 <= p <= strlen text /\ startsWith pat (skipn (Z.to_nat p) text) = true.

(** [p] is the first index at or after [from] where [pat] occurs. *)
Definition firstFrom (pat text : jsstring) (from p : Z) : Prop :=
  from <= p /\ occursAt pat text p /\
  forall k, from <= k < p -> ~ occursAt pat text k.

(** The characters of [text] from index [s] up to index [e], excluded. *)
Definition region (text : jsstring) (s e : Z) : jsstring :=
  firstn (Z.to_nat (e - s)) (skipn (Z.to_nat s) text).

(** The chunk between a pair of cursors, and the pairs that lie inside
    the text. *)
Definition cutRegion (text : jsstring) (c : Z * Z) : jsstring :=
  region text (fst c) (snd c).

Definition cutInside (text : jsstring) (c : Z * Z) : Prop :=
  0 <= fst c <= snd c /\ snd c <= strlen text.

(** Start and end cursors of consecutive chunks, the first starting at
    [s]: each start is the end before it minus the overlap. *)
Inductive linked (overlap : Z) : Z -> list (Z * Z) -> Prop :=
| linked_nil : forall s, linked overlap s []
| linked_cons : forall s e rest,
    linked overlap (e - overlap) rest -> linked overlap s ((s, e) :: rest).

(** Consecutive chunks share a region: each chunk starts after the start
    of the chunk before it and ends at or after its end. *)
Inductive advancing : list (Z * Z) -> Prop :=
| advancing_nil : advancing []
| advancing_one : forall c, advancing [c]
| advancing_cons : forall s e s' e' rest,
    s < s' -> e <= e' -> advancing ((s', e') :: rest) ->
    advancing ((s, e) :: (s', e') :: rest).

(** The first chunk followed by what each later chunk adds after the
    region it shares with the chunk before it. *)
Definition reassemble (overlap : Z) (chunks : list jsstring) : jsstring :=
  match chunks with
  | [] => []
  | c :: rest => c ++ concat (map (skipn (Z.to_nat overlap)) rest)
  end.

(** A cursor from which the loop makes a step that neither ends it nor
    moves the start forward. *)
Definition stuck (text : jsstring) (chunkSize overlap startPos : Z) : Prop :=
  startPos < strlen text /\
  chunkEnd text chunkSize startPos < strlen text /\
  chunkEnd text chunkSize startPos - overlap <= startPos.

(** A chunk with its embedding set. *)
Definition withEmbedding (c : DocumentChunk.t) (embedding : vector) : DocumentChunk.t :=
  DocumentChunk.mk (DocumentChunk._id c) (DocumentChunk.documentId c)
    (DocumentChunk.content c) (Some embedding) (DocumentChunk.createdAt c).

(** What the end of some of the requests [tasks] can have made of the
    chunk [c0]: the chunk itself, or the chunk with the vector that the
    endpoint gave for a request started for its identifier. *)
Definition settledFrom (embeddings_create : jsstring -> option vector)
           (tasks : list (ObjectId * jsstring)) (c0 c : DocumentChunk.t) : Prop :=
  c = c0 \/
  exists task embedding,
    In task tasks /\ fst task = DocumentChunk._id c0 /\
    embeddings_create (snd task) = Some embedding /\
    c = withEmbedding c0 embedding.

(** The state [w'] is the state [w] in which some of the requests started
    have ended: nothing differs but embeddings, chunk by chunk. *)
Definition settledWorld (embeddings_create : jsstring -> option vector)
           (w w' : DocumentProcessor.World) : Prop :=
  documents (DocumentProcessor.db w') = documents (DocumentProcessor.db w) /\
  messages (DocumentProcessor.db w') = messages (DocumentProcessor.db w) /\
  DocumentProcessor.fs w' = DocumentProcessor.fs w /\
  DocumentProcessor.nextId w' = DocumentProcessor.nextId w /\
  DocumentProcessor.pendingEmbeddings w' = DocumentProcessor.pendingEmbeddings w /\
  Forall2 (settledFrom embeddings_create (DocumentProcessor.pendingEmbeddings w))
          (chunks (DocumentProcessor.db w)) (chunks (DocumentProcessor.db w')).

(** A chunk text that [processDocumentChunks] skips. *)
Definition isBlank (chunkText : jsstring) : bool :=
  match trim chunkText with [] => true | _ :: _ => false end.

(** The types a stored document can have. *)
Definition documentTypes : list jsstring :=
  [lit "PDF"; lit "DOCX"; lit "TXT"; lit "MD"].

(** The statements of the specification that the code does not meet, in
    the words of the specification. *)
Module Stated.

(** Snapping as specified: the nearest paragraph break within
    [end-100 .. end+100] if there is one, otherwise just after a
    sentence terminator within [end-100 .. end+50] if there is one. *)
Definition inWindow (pat text : jsstring) (lo hi p : Z) : Prop :=
  occursAt pat text p /\ lo <= p <= hi.

Definition nearest (pat text : jsstring) (lo hi e p : Z) : Prop :=
  inWindow pat text lo hi p /\
  forall p', inWindow pat text lo hi p' -> Z.abs (p - e) <= Z.abs (p' - e).

Definition snapping (text : jsstring) (chunkSize startPos : Z) : Prop :=
  let e := startPos + chunkSize in
  e < strlen text ->
  ((exists p, inWindow paragraphBreak text (e - 100) (e + 100) p) ->
   exists p, nearest paragraphBreak text (e - 100) (e + 100) e p /\
             chunkAt text chunkSize startPos
             = region text startPos (Z.min p (strlen text)))
  /\
  ((forall p, ~ inWindow paragraphBreak text (e - 100) (e + 100) p) ->
   (exists q, inWindow sentenceBreak text (e - 100) (e + 50) q) ->
   exists q, inWindow sentenceBreak text (e - 100) (e + 50) q /\
             chunkAt text chunkSize startPos
             = region text startPos (Z.min (q + 1) (strlen text))).


(** For an identifier that is not present, [deleteDocument] returns
    [false] and removes nothing. *)
Definition deleteAbsent (castObjectId : jsstring -> result ObjectId)
           (id : jsstring) (db : DB) : Prop :=
  (forall d, In d (documents db) -> castObjectId id <> Ok (Document._id d)) ->
  MongoStorage.deleteDocumentParam castObjectId id db = (Ok false, db).

(** A text shorter than the chunk size gives exactly one chunk, the
    text itself. *)
Definition shortText (text : jsstring) (chunkSize overlap : Z) : Prop :=
  strlen text < chunkSize ->
  exists fuel, splitTextIntoChunks fuel text chunkSize overlap = Returned [text].

End Stated.

(** Inputs the statements are evaluated at. *)
Module Inputs.

(** A short line, a paragraph break and two hundred more characters. *)
Definition greeting : jsstring :=
  lit "Hello." ++ [LF; LF] ++ repeat "x"%char 200.

(** A sentence terminator exactly fifty characters after the proposed
    end of a chunk of one character. *)
Definition farSentence : jsstring :=
  repeat "a"%char 51 ++ lit ". " ++ lit "bb".

(** Two paragraph breaks, at index 10 and at index 20. *)
Definition twoBreaks : jsstring :=
  repeat "a"%char 10 ++ [LF; LF] ++ repeat "b"%char 8 ++ [LF; LF]
  ++ repeat "c"%char 5.

Definition alphabet : jsstring := lit "abcdefghij".

(** Two documents; the first owns two chunks, the second one. *)
Definition manual : Document.t :=
  Document.mk 1%N (lit "manual.pdf") (lit "PDF") 2048 10.
Definition notes : Document.t :=
  Document.mk 2%N (lit "notes.txt") (lit "TXT") 512 20.

Definition library : DB :=
  {| documents := [manual; notes];
     chunks := [DocumentChunk.mk 11%N 1%N (lit "Press the red button.") None 11;
                DocumentChunk.mk 12%N 2%N (lit "Buy milk.") (Some [1%Q; 0%Q]) 21;
                DocumentChunk.mk 13%N 1%N (lit "Then wait.") (Some [0%Q; 1%Q]) 12];
     messages := [] |}.

Definition emptyDB : DB := {| documents := []; chunks := []; messages := [] |}.

(** An upload of a file the extraction does not support. *)
Definition setup : DocumentProcessor.UploadedFile :=
  DocumentProcessor.mkFile (lit "uploads/1700000000000-setup.exe")
    (lit "setup.exe") 3.

Definition afterUpload : DocumentProcessor.World :=
  {| DocumentProcessor.db := emptyDB;
     DocumentProcessor.fs := [(DocumentProcessor.path setup, lit "MZ!")];
     DocumentProcessor.nextId := 1%N;
     DocumentProcessor.pendingEmbeddings := [] |}.

(** The text of a name from its last dot on, when that dot is not the
    first character: what [path.extname] gives for a plain file name. *)
Fixpoint fromLastDot (t : jsstring) : option jsstring :=
  match t with
  | [] => None
  | c :: t' =>
      match fromLastDot t' with
      | Some suffix => Some suffix
      | None => if ascii_eqb c "."%char then Some t else None
      end
  end.

Definition extnameOfFileName (name : jsstring) : jsstring :=
  match name with
  | [] => []
  | _ :: rest => match fromLastDot rest with Some suffix => suffix | None => [] end
  end.

Definition failingParser (buffer : list ascii) : result jsstring :=
  Throw (lit "parse error").

Definition latin1 (buffer : list ascii) : jsstring := buffer.

(** Endpoints that reject every call. *)
Definition noEmbedding (text : jsstring) : option vector := None.
Definition noCompletion (request : OpenAI.CompletionRequest) : option jsstring := None.
Definition zeroSimilarity (a b : vector) : Q := 0%Q.

(** Three hundred characters without a break. *)
Definition plain : jsstring := repeat "x"%char 300.

(** An upload of a text file of two sentences. *)
Definition readme : DocumentProcessor.UploadedFile :=
  DocumentProcessor.mkFile (lit "uploads/1700000000001-README.MD")
    (lit "README.MD") 24.

Definition afterReadme : DocumentProcessor.World :=
  {| DocumentProcessor.db := library;
     DocumentProcessor.fs :=
       [(DocumentProcessor.path readme, lit "Install it. Then run it.")];
     DocumentProcessor.nextId := 40%N;
     DocumentProcessor.pendingEmbeddings := [] |}.

(** An upload of a text file of 2500 characters, made while the request
    for the first chunk of the library is not ended. *)
Definition handbookText : jsstring :=
  List.concat (repeat (lit "Read the handbook first. ") 100).

Definition handbook : DocumentProcessor.UploadedFile :=
  DocumentProcessor.mkFile (lit "uploads/1700000000002-HANDBOOK.MD")
    (lit "HANDBOOK.MD") 2500.

Definition afterHandbook : DocumentProcessor.World :=
  {| DocumentProcessor.db := library;
     DocumentProcessor.fs := [(DocumentProcessor.path handbook, handbookText)];
     DocumentProcessor.nextId := 40%N;
     DocumentProcessor.pendingEmbeddings := [(11%N, lit "Press the red button.")] |}.

(** An embeddings endpoint and a completion endpoint that answer. *)
Definition unitEmbedding (text : jsstring) : option vector := Some [1%Q; 0%Q].
Definition echoCompletion (request : OpenAI.CompletionRequest) : option jsstring :=
  Some (lit "I can only answer from your documents.").

(** The dot product, as a similarity for the examples. *)
Fixpoint dot (a b : vector) : Q :=
  match a, b with
  | x :: a', y :: b' => (x * y + dot a' b')%Q
  | _, _ => 0%Q
  end.

(** The library with a conversation of two messages, stored in the
    reverse of the order of their creation. *)
Definition conversation : DB :=
  {| documents := documents library;
     chunks := chunks library;
     messages := [Message.mk assistant (lit "Ask me about your documents.") 7;
                  Message.mk user (lit "Hi.") 3] |}.

(** A cast for the examples: a string of 24 hexadecimal digits is the
    identifier of that value, every other string is refused. *)
Definition hexDigit (c : ascii) : option N :=
  let n := N_of_ascii c in
  if (48 <=? n)%N && (n <=? 57)%N then Some (n - 48)%N
  else if (97 <=? n)%N && (n <=? 102)%N then Some (n - 87)%N
  else if (65 <=? n)%N && (n <=? 70)%N then Some (n - 55)%N
  else None.

Fixpoint hexValue (t : jsstring) (acc : N) : option N :=
  match t with
  | [] => Some acc
  | c :: t' =>
      match hexDigit c with
      | Some d => hexValue t' (16 * acc + d)%N
      | None => None
      end
  end.

Definition hexObjectId (id : jsstring) : result ObjectId :=
  if (List.length id =? 24)%nat then
    match hexValue id 0%N with
    | Some oid => Ok oid
    | None => Throw (lit "Cast to ObjectId failed")
    end
  else Throw (lit "Cast to ObjectId failed").

End Inputs.

(* ================================================================== *)
(** * Facts about the string primitives *)
(* ================================================================== *)

Lemma strlen_nonneg (t : jsstring) : 0 <= strlen t.
Proof. unfold strlen; lia. Qed.

Lemma clamp_bounds (n hi : Z) : 0 <= hi -> 0 <= clamp n hi <= hi.
Proof. unfold clamp; lia. Qed.

Lemma clamp_id (n hi : Z) : 0 <= n <= hi -> clamp n hi = n.
Proof. unfold clamp; lia. Qed.

Lemma startsWith_length (pat t : jsstring) :
  startsWith pat t = true -> (List.length pat <= List.length t)%nat.
Proof.
  revert t; induction pat as [|p pat IH]; intros [|c t]; simpl; intros H;
    try lia; try discriminate.
  apply andb_true_iff in H as [_ H]. apply IH in H. lia.
Qed.

Lemma occursAt_fits (pat text : jsstring) (p : Z) :
  occursAt pat text p -> p + strlen pat <= strlen text.
Proof.
  intros [Hp H]. apply startsWith_length in H.
  rewrite length_skipn in H. unfold strlen in *. lia.
Qed.

(** The search finds the first occurrence in the suffix it is given. *)
Lemma scan_spec (pat t : jsstring) (k : Z) :
  0 <= k ->
  (scan pat t k = -1 /\
   forall j, (j <= List.length t)%nat -> startsWith pat (skipn j t) = false)
  \/
  (exists i, scan pat t k = k + Z.of_nat i /\ (i <= List.length t)%nat /\
             startsWith pat (skipn i t) = true /\
             forall j, (j < i)%nat -> startsWith pat (skipn j t) = false).
Proof.
  revert k; induction t as [|c t IH]; intros k Hk; simpl scan.
  - destruct (startsWith pat []) eqn:E.
    + right. exists 0%nat. simpl. repeat split; auto; try lia; intros; lia.
    + left. split; auto. intros j Hj. simpl in Hj.
      replace j with 0%nat by lia. exact E.
  - destruct (startsWith pat (c :: t)) eqn:E.
    + right. exists 0%nat. simpl. repeat split; auto; try lia; intros; lia.
    + destruct (IH (k + 1) ltac:(lia)) as [[H1 H2] | [i (H1 & H2 & H3 & H4)]].
      * left. split; auto. intros [|j] Hj; [exact E|].
        simpl. apply H2. simpl in Hj. lia.
      * right. exists (S i). simpl. repeat split; auto; try lia.
        intros [|j] Hj; [exact E|]. simpl. apply H4. lia.
Qed.

(** A result of [indexOf] other than [-1] is an occurrence at or after
    the clamped position. *)
Lemma indexOf_found (t pat : jsstring) (position p : Z) :
  indexOf t pat position = p -> p <> -1 ->
  clamp position (strlen t) <= p /\ occursAt pat t p.
Proof.
  unfold indexOf. intros H Hp.
  pose proof (clamp_bounds position (strlen t) (strlen_nonneg t)) as Hc.
  set (start := clamp position (strlen t)) in *.
  destruct (scan_spec pat (skipn (Z.to_nat start) t) start ltac:(lia))
    as [[H1 _] | [i (H1 & H2 & H3 & _)]]; [congruence|].
  rewrite H1 in H. subst p. rewrite length_skipn in H2.
  rewrite skipn_skipn in H3. unfold occursAt, strlen in *.
  split; [lia|]. split; [lia|].
  replace (Z.to_nat (start + Z.of_nat i)) with (i + Z.to_nat start)%nat by lia.
  exact H3.
Qed.

(** [indexOf] does not pass over an occurrence. *)
Lemma indexOf_first (t pat : jsstring) (position k : Z) :
  occursAt pat t k -> clamp position (strlen t) <= k ->
  indexOf t pat position <> -1 /\ indexOf t pat position <= k.
Proof.
  unfold indexOf. intros [Hk Ho] Hle.
  pose proof (clamp_bounds position (strlen t) (strlen_nonneg t)) as Hc.
  set (start := clamp position (strlen t)) in *.
  assert (Hsk : skipn (Z.to_nat k) t
                = skipn (Z.to_nat k - Z.to_nat start) (skipn (Z.to_nat start) t)).
  { rewrite skipn_skipn. f_equal. lia. }
  rewrite Hsk in Ho.
  destruct (scan_spec pat (skipn (Z.to_nat start) t) start ltac:(lia))
    as [[H1 H2] | [i (H1 & H2 & H3 & H4)]].
  - rewrite H2 in Ho; [discriminate|].
    rewrite length_skipn. unfold strlen in *. lia.
  - rewrite H1. split; [lia|].
    destruct (Nat.lt_ge_cases (Z.to_nat k - Z.to_nat start) i) as [Hlt|Hge].
    + rewrite (H4 _ Hlt) in Ho. discriminate.
    + lia.
Qed.

Lemma indexOf_firstFrom (t pat : jsstring) (position p : Z) :
  indexOf t pat position = p -> p <> -1 ->
  firstFrom pat t (clamp position (strlen t)) p.
Proof.
  intros H Hp. destruct (indexOf_found _ _ _ _ H Hp) as [H1 H2].
  repeat split; auto; try apply H2.
  intros k Hk Hocc.
  destruct (indexOf_first t pat position k Hocc ltac:(lia)) as [_ Hle]. lia.
Qed.

Lemma firstFrom_indexOf (t pat : jsstring) (position p : Z) :
  firstFrom pat t (clamp position (strlen t)) p -> indexOf t pat position = p.
Proof.
  intros (H1 & H2 & H3).
  destruct (indexOf_first t pat position p H2 H1) as [Hne Hle].
  destruct (indexOf_found t pat position _ eq_refl Hne) as [Hge Hocc].
  destruct (Z.eq_dec (indexOf t pat position) p) as [|Hd]; auto.
  exfalso. apply (H3 (indexOf t pat position)); auto. lia.
Qed.

Lemma length_substring (t : jsstring) (s e : Z) :
  strlen (substring t s e)
  = Z.abs (clamp e (strlen t) - clamp s (strlen t)).
Proof.
  unfold substring.
  pose proof (clamp_bounds s (strlen t) (strlen_nonneg t)).
  pose proof (clamp_bounds e (strlen t) (strlen_nonneg t)).
  unfold strlen at 1. rewrite length_firstn, length_skipn.
  unfold strlen in *. lia.
Qed.

Lemma substring_region (t : jsstring) (s e : Z) :
  0 <= s <= e -> e <= strlen t -> substring t s e = region t s e.
Proof.
  intros H1 H2. unfold substring, region.
  rewrite !clamp_id by lia. do 2 f_equal; lia.
Qed.

Lemma region_all (t : jsstring) (s : Z) :
  0 <= s -> region t s (strlen t) = skipn (Z.to_nat s) t.
Proof.
  intros H. unfold region. apply firstn_all2.
  rewrite length_skipn. unfold strlen. lia.
Qed.

Lemma length_region (t : jsstring) (s e : Z) :
  0 <= s <= e -> e <= strlen t -> strlen (region t s e) = e - s.
Proof.
  intros H1 H2. unfold region, strlen in *.
  rewrite length_firstn, length_skipn. lia.
Qed.

Lemma region_then_rest (t : jsstring) (s e : Z) :
  0 <= s <= e -> region t s e ++ skipn (Z.to_nat e) t = skipn (Z.to_nat s) t.
Proof.
  intros H. unfold region.
  rewrite <- (firstn_skipn (Z.to_nat (e - s)) (skipn (Z.to_nat s) t)) at 2.
  f_equal. rewrite skipn_skipn. f_equal. lia.
Qed.

(* ================================================================== *)
(** * The chunker *)
(* ================================================================== *)

Lemma indexOf_lower (t pat : jsstring) (position : Z) :
  indexOf t pat position <> -1 ->
  clamp position (strlen t) <= indexOf t pat position /\
  indexOf t pat position + strlen pat <= strlen t.
Proof.
  intros H. destruct (indexOf_found t pat position _ eq_refl H) as [H1 H2].
  split; auto. now apply occursAt_fits.
Qed.

(** Two searches for the same pattern: what the one finds bounds what
    the other finds, when it lies in the range the other looks at. *)
Lemma indexOf_cross (t pat : jsstring) (position position' : Z) :
  indexOf t pat position <> -1 ->
  clamp position' (strlen t) <= indexOf t pat position ->
  indexOf t pat position' <> -1 /\
  indexOf t pat position' <= indexOf t pat position.
Proof.
  intros H Hle. destruct (indexOf_found t pat position _ eq_refl H) as [_ H2].
  now apply indexOf_first.
Qed.

Ltac bool_to_Z :=
  repeat lazymatch goal with
    | |- context [?a <? ?b] => destruct (Z.ltb_spec a b)
    | |- context [?a =? ?b] => destruct (Z.eqb_spec a b)
    | |- context [?a >=? ?b] => rewrite (Z.geb_leb a b)
    | |- context [?a <=? ?b] => destruct (Z.leb_spec a b)
    end; cbn [negb andb orb].

Lemma adjustEnd_lower (text : jsstring) (e : Z) :
  e < strlen text -> e - 100 <= adjustEnd text e /\ adjustEnd text e < strlen text.
Proof.
  intros He. unfold adjustEnd.
  pose proof (indexOf_lower text paragraphBreak (e - 100)) as HP.
  pose proof (indexOf_lower text sentenceBreak (e - 100)) as HQ.
  unfold clamp in *. change (strlen paragraphBreak) with 2 in HP.
  change (strlen sentenceBreak) with 2 in HQ.
  bool_to_Z; try lia.
Qed.

Lemma adjustEnd_upper (text : jsstring) (e : Z) : adjustEnd text e <= e + 99.
Proof. unfold adjustEnd. bool_to_Z; try lia. Qed.

(** The three ways the adjustment can go. *)
Lemma adjustEnd_cases (text : jsstring) (e : Z) :
  e < strlen text ->
  (indexOf text paragraphBreak (e - 100) <> -1 /\
   indexOf text paragraphBreak (e - 100) < e + 100 /\
   adjustEnd text e = indexOf text paragraphBreak (e - 100))
  \/
  ((indexOf text paragraphBreak (e - 100) = -1 \/
    e + 100 <= indexOf text paragraphBreak (e - 100)) /\
   indexOf text sentenceBreak (e - 100) <> -1 /\
   indexOf text sentenceBreak (e - 100) < e + 50 /\
   adjustEnd text e = indexOf text sentenceBreak (e - 100) + 1)
  \/
  ((indexOf text paragraphBreak (e - 100) = -1 \/
    e + 100 <= indexOf text paragraphBreak (e - 100)) /\
   (indexOf text sentenceBreak (e - 100) = -1 \/
    e + 50 <= indexOf text sentenceBreak (e - 100)) /\
   adjustEnd text e = e).
Proof.
  intros He. unfold adjustEnd.
  destruct (Z.ltb_spec e (strlen text)); [| lia].
  destruct (Z.eqb_spec (indexOf text paragraphBreak (e - 100)) (-1)) as [EP|EP];
    destruct (Z.ltb_spec (indexOf text paragraphBreak (e - 100)) (e + 100));
    cbn [negb andb]; auto;
    destruct (Z.eqb_spec (indexOf text sentenceBreak (e - 100)) (-1)) as [EQ|EQ];
    destruct (Z.ltb_spec (indexOf text sentenceBreak (e - 100)) (e + 50));
    cbn [negb andb]; auto 10.
Qed.

(** Below the end of the text the adjusted end grows with the proposed
    end. *)
Lemma adjustEnd_mono (text : jsstring) (e' e : Z) :
  e' <= e -> e < strlen text -> adjustEnd text e' <= adjustEnd text e.
Proof.
  intros Hle He.
  assert (He' : e' < strlen text) by lia.
  pose proof (strlen_nonneg text) as Hlen.
  assert (HF : clamp (e' - 100) (strlen text) <= clamp (e - 100) (strlen text))
    by (unfold clamp; lia).
  assert (HF0 : clamp (e - 100) (strlen text) <= e - 100 \/
                clamp (e - 100) (strlen text) <= 0)
    by (unfold clamp; lia).
  assert (HF1 : 0 <= clamp (e' - 100) (strlen text)) by (unfold clamp; lia).
  pose proof (indexOf_lower text paragraphBreak (e - 100)) as HP.
  pose proof (indexOf_lower text paragraphBreak (e' - 100)) as HP'.
  pose proof (indexOf_lower text sentenceBreak (e - 100)) as HQ.
  pose proof (indexOf_lower text sentenceBreak (e' - 100)) as HQ'.
  pose proof (indexOf_cross text paragraphBreak (e - 100) (e' - 100)) as HPP'.
  pose proof (indexOf_cross text paragraphBreak (e' - 100) (e - 100)) as HP'P.
  pose proof (indexOf_cross text sentenceBreak (e - 100) (e' - 100)) as HQQ'.
  pose proof (indexOf_cross text sentenceBreak (e' - 100) (e - 100)) as HQ'Q.
  destruct (adjustEnd_cases text e He)
    as [(Pn & Pw & ->) | [(Pw & Qn & Qw & ->) | (Pw & Qw & ->)]];
    destruct (adjustEnd_cases text e' He')
      as [(Pn' & Pw' & ->) | [(Pw' & Qn' & Qw' & ->) | (Pw' & Qw' & ->)]];
    set (F := clamp (e - 100) (strlen text)) in *;
    set (F' := clamp (e' - 100) (strlen text)) in *;
    set (P := indexOf text paragraphBreak (e - 100)) in *;
    set (P' := indexOf text paragraphBreak (e' - 100)) in *;
    set (Q := indexOf text sentenceBreak (e - 100)) in *;
    set (Q' := indexOf text sentenceBreak (e' - 100)) in *;
    clearbody F F' P P' Q Q'.
  - (* paragraph, paragraph *)
    clear HQ HQ' HQQ' HQ'Q HP'P. lia.
  - (* paragraph, sentence *)
    clear HQ HQQ' HQ'Q HP'P HP'. lia.
  - (* paragraph, none *)
    clear HQ HQ' HQQ' HQ'Q HP'P HP'. lia.
  - (* sentence, paragraph *)
    clear HQ' HQQ' HQ'Q HPP'. specialize (HP' Pn'). specialize (HQ Qn).
    specialize (HP'P Pn'). destruct (Z.le_gt_cases F P'); lia.
  - (* sentence, sentence *)
    clear HP HP' HPP' HP'P HQ'Q. lia.
  - (* sentence, none *)
    clear HP HP' HPP' HP'P HQ'Q. lia.
  - (* none, paragraph *)
    clear HQ HQ' HQQ' HQ'Q HPP'. specialize (HP' Pn'). specialize (HP'P Pn').
    destruct (Z.le_gt_cases F P'); lia.
  - (* none, sentence *)
    clear HP HP' HPP' HP'P HQQ'. specialize (HQ' Qn'). specialize (HQ'Q Qn').
    destruct (Z.le_gt_cases F Q'); lia.
  - lia.
Qed.

Lemma chunkEnd_le (text : jsstring) (chunkSize startPos : Z) :
  chunkEnd text chunkSize startPos <= strlen text.
Proof. unfold chunkEnd. lia. Qed.

Lemma chunkEnd_at_end (text : jsstring) (chunkSize startPos : Z) :
  strlen text <= startPos + chunkSize ->
  chunkEnd text chunkSize startPos = strlen text.
Proof.
  intros H. unfold chunkEnd, adjustEnd.
  destruct (Z.ltb_spec (startPos + chunkSize) (strlen text)); lia.
Qed.

Lemma chunkEnd_before_end (text : jsstring) (chunkSize startPos : Z) :
  chunkEnd text chunkSize startPos < strlen text ->
  startPos + chunkSize < strlen text /\
  chunkEnd text chunkSize startPos = adjustEnd text (startPos + chunkSize).
Proof.
  intros H.
  destruct (Z.lt_ge_cases (startPos + chunkSize) (strlen text)) as [Hlt|Hge].
  - split; auto. unfold chunkEnd in *. lia.
  - rewrite chunkEnd_at_end in H; lia.
Qed.

(** A step that does not move the start forward is followed by another
    such step. *)
Lemma stuck_next (text : jsstring) (chunkSize overlap startPos : Z) :
  stuck text chunkSize overlap startPos ->
  stuck text chunkSize overlap (chunkEnd text chunkSize startPos - overlap).
Proof.
  intros (Hs & He & Hno).
  destruct (chunkEnd_before_end _ _ _ He) as [Hlt Heq].
  set (s' := chunkEnd text chunkSize startPos - overlap) in *.
  assert (Hmono : chunkEnd text chunkSize s' <= chunkEnd text chunkSize startPos).
  { unfold chunkEnd at 1 2.
    pose proof (adjustEnd_mono text (s' + chunkSize) (startPos + chunkSize)
                  ltac:(lia) Hlt). lia. }
  unfold stuck. fold s'. lia.
Qed.

(** From such a cursor the loop never returns, whatever the bound. *)
Lemma stuck_forever (text : jsstring) (chunkSize overlap : Z) (fuel : nat) :
  forall startPos chunks,
    stuck text chunkSize overlap startPos ->
    exists sofar,
      splitLoop fuel text chunkSize overlap startPos chunks = OutOfFuel sofar.
Proof.
  induction fuel as [|fuel IH]; intros s acc Hst;
    pose proof Hst as (Hs & He & Hno); simpl.
  - destruct (Z.ltb_spec s (strlen text)); [eauto | lia].
  - destruct (Z.ltb_spec s (strlen text)); [| lia].
    replace ((chunkEnd text chunkSize s - overlap >=? strlen text)
             || (chunkEnd text chunkSize s =? strlen text)) with false.
    + apply IH. now apply stuck_next.
    + symmetry. apply orb_false_iff. split.
      * rewrite Z.geb_leb. apply Z.leb_gt. lia.
      * apply Z.eqb_neq. lia.
Qed.

(** The chunks pushed before a cursor is reached stay in front. *)
Lemma splitLoop_acc (text : jsstring) (chunkSize overlap : Z) (fuel : nat) :
  forall startPos chunks,
    splitLoop fuel text chunkSize overlap startPos chunks
    = onChunks (app chunks) (splitLoop fuel text chunkSize overlap startPos []).
Proof.
  induction fuel as [|fuel IH]; intros s acc; simpl.
  - destruct (s <? strlen text); simpl; now rewrite app_nil_r.
  - destruct (s <? strlen text); simpl; [| now rewrite app_nil_r].
    destruct ((chunkEnd text chunkSize s - overlap >=? strlen text)
              || (chunkEnd text chunkSize s =? strlen text)); simpl; auto.
    rewrite IH.
    rewrite (IH _ [substring text s (chunkEnd text chunkSize s)]).
    destruct (splitLoop fuel text chunkSize overlap
                (chunkEnd text chunkSize s - overlap) []);
      simpl; now rewrite <- app_assoc.
Qed.

(** One iteration, seen from outside. *)
Lemma splitLoop_step (text : jsstring) (chunkSize overlap : Z) (fuel : nat)
      (startPos : Z) :
  startPos < strlen text ->
  splitLoop (S fuel) text chunkSize overlap startPos []
  = if (chunkEnd text chunkSize startPos - overlap >=? strlen text)
       || (chunkEnd text chunkSize startPos =? strlen text)
    then Returned [chunkAt text chunkSize startPos]
    else onChunks (cons (chunkAt text chunkSize startPos))
           (splitLoop fuel text chunkSize overlap
              (chunkEnd text chunkSize startPos - overlap) []).
Proof.
  intros H. simpl. destruct (Z.ltb_spec startPos (strlen text)); [| lia].
  destruct ((chunkEnd text chunkSize startPos - overlap >=? strlen text)
            || (chunkEnd text chunkSize startPos =? strlen text)); auto.
  now rewrite splitLoop_acc.
Qed.

Lemma splitLoop_done (text : jsstring) (chunkSize overlap : Z) (fuel : nat)
      (startPos : Z) (chunks : list jsstring) :
  strlen text <= startPos ->
  splitLoop fuel text chunkSize overlap startPos chunks = Returned chunks.
Proof.
  intros H. destruct fuel; simpl;
    destruct (Z.ltb_spec startPos (strlen text)); auto; lia.
Qed.

(** When the chunk size exceeds the overlap by more than the width of the
    backward search, every step that does not end the loop moves the
    start forward, and one iteration per remaining character is enough. *)
Lemma splitLoop_returns (text : jsstring) (chunkSize overlap : Z) (fuel : nat) :
  100 < chunkSize - overlap ->
  forall startPos chunks,
    strlen text - startPos <= Z.of_nat fuel ->
    exists result,
      splitLoop fuel text chunkSize overlap startPos chunks = Returned result.
Proof.
  intros Hgap. induction fuel as [|fuel IH]; intros s acc Hfuel.
  - rewrite splitLoop_done by lia. eauto.
  - destruct (Z.lt_ge_cases s (strlen text)) as [Hs|Hs];
      [| rewrite splitLoop_done by lia; eauto].
    simpl. destruct (Z.ltb_spec s (strlen text)); [| lia].
    destruct ((chunkEnd text chunkSize s - overlap >=? strlen text)
              || (chunkEnd text chunkSize s =? strlen text)) eqn:E; [eauto|].
    apply orb_false_iff in E as [_ E]. apply Z.eqb_neq in E.
    pose proof (chunkEnd_le text chunkSize s).
    destruct (chunkEnd_before_end text chunkSize s ltac:(lia)) as [Hlt Heq].
    pose proof (adjustEnd_lower text _ Hlt).
    apply IH. lia.
Qed.

(** The sizes of [processDocumentChunks]: the loop returns within the
    iterations it is given there. *)
Lemma production_chunking_returns (text : jsstring) :
  exists chunks,
    splitTextIntoChunks (S (List.length text)) text 1000 200 = Returned chunks.
Proof.
  apply splitLoop_returns; [lia|]. unfold strlen. lia.
Qed.

(** A run that returns has made, at every cursor it went through, a step
    that ended the loop or moved the start forward. *)
Lemma returned_step (text : jsstring) (chunkSize overlap : Z) (fuel : nat)
      (startPos : Z) (chunks : list jsstring) :
  startPos < strlen text ->
  splitLoop fuel text chunkSize overlap startPos [] = Returned chunks ->
  chunkEnd text chunkSize startPos = strlen text \/
  startPos < chunkEnd text chunkSize startPos - overlap.
Proof.
  intros Hs Hrun.
  destruct (Z.eq_dec (chunkEnd text chunkSize startPos) (strlen text)) as [|Hne];
    [now left|].
  destruct (Z.lt_ge_cases startPos (chunkEnd text chunkSize startPos - overlap))
    as [|Hge]; [now right|].
  exfalso.
  pose proof (chunkEnd_le text chunkSize startPos).
  destruct (stuck_forever text chunkSize overlap fuel startPos [])
    as [sofar Hsofar]; [unfold stuck; lia | congruence].
Qed.

Lemma onChunks_returned {A : Type} (f : A -> A) (o : outcome A) (a : A) :
  onChunks f o = Returned a -> exists b, o = Returned b /\ a = f b.
Proof. destruct o; simpl; intros H; inversion H; eauto. Qed.

(** The chunks of a run that returns, from any cursor on: they are the
    regions between linked cursors, and put together without the shared
    parts they give the text from the cursor to its end. *)
Lemma splitLoop_covers (text : jsstring) (chunkSize overlap : Z) (fuel : nat) :
  0 <= overlap ->
  forall startPos chunks,
    0 <= startPos ->
    splitLoop fuel text chunkSize overlap startPos [] = Returned chunks ->
    exists cuts,
      chunks = map (cutRegion text) cuts /\
      Forall (cutInside text) cuts /\
      linked overlap startPos cuts /\
      advancing cuts /\
      (startPos < strlen text ->
       exists rest, cuts = (startPos, chunkEnd text chunkSize startPos) :: rest) /\
      reassemble overlap chunks = skipn (Z.to_nat startPos) text.
Proof.
  intros Hov. induction fuel as [|fuel IH]; intros s chunks Hs Hrun.
  - simpl in Hrun. destruct (Z.ltb_spec s (strlen text)); [discriminate|].
    inversion Hrun; subst. exists []. simpl. repeat split; auto.
    + constructor.
    + constructor.
    + intros; lia.
    + symmetry. apply skipn_all2. unfold strlen in *. lia.
  - destruct (Z.lt_ge_cases s (strlen text)) as [Hlt|Hge].
    2:{ rewrite splitLoop_done in Hrun by lia. inversion Hrun; subst.
        exists []. simpl. repeat split; auto.
        - constructor.
        - constructor.
        - intros; lia.
        - symmetry. apply skipn_all2. unfold strlen in *. lia. }
    pose proof (returned_step _ _ _ _ _ _ Hlt Hrun) as Hstep.
    pose proof (chunkEnd_le text chunkSize s) as Hle.
    rewrite splitLoop_step in Hrun by assumption.
    set (e := chunkEnd text chunkSize s) in *.
    destruct ((e - overlap >=? strlen text) || (e =? strlen text)) eqn:Efin.
    + (* the last chunk *)
      assert (He : e = strlen text).
      { apply orb_true_iff in Efin as [Efin|Efin].
        - rewrite Z.geb_leb in Efin. apply Z.leb_le in Efin. lia.
        - now apply Z.eqb_eq. }
      inversion Hrun; subst chunks. exists [(s, e)].
      unfold chunkAt. fold e. rewrite substring_region by lia.
      simpl. unfold cutRegion. simpl. repeat split; auto; try lia.
      * repeat constructor; unfold cutInside; simpl; lia.
      * repeat constructor.
      * constructor.
      * eauto.
      * rewrite app_nil_r, He. apply region_all. lia.
    + (* a chunk that is followed by another *)
      apply orb_false_iff in Efin as [_ Efin]. apply Z.eqb_neq in Efin.
      destruct Hstep as [|Hadv]; [contradiction|].
      apply onChunks_returned in Hrun as (rest & Hrest & ->).
      assert (Hs1 : 0 <= e - overlap < strlen text) by lia.
      destruct (IH (e - overlap) rest ltac:(lia) Hrest)
        as (cuts & Hmap & Hin & Hlink & Hadvancing & Hhead & Hre).
      destruct (Hhead ltac:(lia)) as (cuts' & ->).
      pose proof (returned_step text chunkSize overlap fuel (e - overlap) rest
                    ltac:(lia) Hrest) as Hnext.
      set (s1 := e - overlap) in *.
      set (e1 := chunkEnd text chunkSize s1) in *.
      pose proof (chunkEnd_le text chunkSize s1) as Hle1. fold e1 in Hle1.
      assert (He1 : e <= e1) by lia.
      exists ((s, e) :: (s1, e1) :: cuts').
      unfold chunkAt. fold e. rewrite substring_region by lia.
      repeat split; auto.
      * simpl. now rewrite Hmap.
      * constructor; auto. unfold cutInside; simpl; lia.
      * constructor. exact Hlink.
      * constructor; auto; lia.
      * eauto.
      * subst rest. simpl in Hre |- *. unfold cutRegion in *. simpl in *.
        set (Y := concat (map (skipn (Z.to_nat overlap))
                          (map (fun c => region text (fst c) (snd c)) cuts'))) in *.
        assert (Hlen : strlen (region text s1 e1) = e1 - s1)
          by (apply length_region; lia).
        assert (Hskip : skipn (Z.to_nat overlap) (region text s1 e1) ++ Y
                        = skipn (Z.to_nat e) text).
        { transitivity (skipn (Z.to_nat overlap) (region text s1 e1 ++ Y)).
          - rewrite skipn_app.
            replace (Z.to_nat overlap - List.length (region text s1 e1))%nat
              with 0%nat by (unfold strlen in Hlen; lia).
            reflexivity.
          - rewrite Hre, skipn_skipn. f_equal. lia. }
        rewrite Hskip. apply region_then_rest. lia.
Qed.

(** The length of the chunk cut at a cursor inside the text. *)
Lemma chunkAt_length (text : jsstring) (chunkSize startPos : Z) :
  0 < chunkSize -> startPos < strlen text ->
  strlen (chunkAt text chunkSize startPos) <= chunkSize + 99.
Proof.
  intros Hcs Hs. unfold chunkAt. rewrite length_substring.
  pose proof (strlen_nonneg text).
  pose proof (adjustEnd_upper text (startPos + chunkSize)) as Hup.
  pose proof (chunkEnd_le text chunkSize startPos) as Hle.
  destruct (Z.lt_ge_cases (startPos + chunkSize) (strlen text)) as [Hlt|Hge].
  - pose proof (adjustEnd_lower text _ Hlt) as [Hlo Hhi].
    unfold chunkEnd in *.
    set (a := adjustEnd text (startPos + chunkSize)) in *. clearbody a.
    apply Z.abs_le. unfold clamp. lia.
  - rewrite chunkEnd_at_end by lia. apply Z.abs_le. unfold clamp. lia.
Qed.

(** What holds of the chunk cut at every cursor holds of every chunk the
    loop pushes. *)
Lemma splitLoop_Forall (P : jsstring -> Prop) (text : jsstring)
      (chunkSize overlap : Z) (fuel : nat) :
  (forall s, s < strlen text -> P (chunkAt text chunkSize s)) ->
  forall startPos chunks,
    Forall P chunks ->
    Forall P (emitted (splitLoop fuel text chunkSize overlap startPos chunks)).
Proof.
  intros HP. induction fuel as [|fuel IH]; intros s acc Hacc; simpl.
  - destruct (s <? strlen text); exact Hacc.
  - destruct (Z.ltb_spec s (strlen text)); [| exact Hacc].
    assert (Hacc' : Forall P (acc ++ [substring text s (chunkEnd text chunkSize s)])).
    { apply Forall_app. split; auto. constructor; auto. now apply HP. }
    destruct ((chunkEnd text chunkSize s - overlap >=? strlen text)
              || (chunkEnd text chunkSize s =? strlen text)); auto.
Qed.

(* ================================================================== *)
(** * The chunker: statements *)
(* ================================================================== *)

Ltac by_computation :=
  repeat split;
  match goal with
  | |- _ < _ => apply Z.ltb_lt; vm_compute; reflexivity
  | |- _ <= _ => apply Z.leb_le; vm_compute; reflexivity
  | |- _ => vm_compute; reflexivity
  end.





(** C3 (as amended).  When the proposed end [e = start + chunkSize] lies
    before the end of the text, the end of the chunk is the first
    paragraph break at or after [max (e - 100) 0] if that one lies before
    [e + 100]; otherwise one past the first sentence terminator at or
    after [max (e - 100) 0] if that one lies before [e + 50]; otherwise
    [e].  It never exceeds the length of the text, and the chunk pushed
    is [text.substring(start, end)]. *)
Theorem snapping_first_break (text : jsstring) (chunkSize overlap startPos : Z) :
  let e := startPos + chunkSize in
  let from := Z.max (e - 100) 0 in
  e < strlen text ->
  (forall p, firstFrom paragraphBreak text from p -> p < e + 100 ->
             chunkEnd text chunkSize startPos = p)
  /\
  ((forall p, occursAt paragraphBreak text p -> from <= p -> e + 100 <= p) ->
   forall q, firstFrom sentenceBreak text from q -> q < e + 50 ->
             chunkEnd text chunkSize startPos = q + 1)
  /\
  ((forall p, occursAt paragraphBreak text p -> from <= p -> e + 100 <= p) ->
   (forall q, occursAt sentenceBreak text q -> from <= q -> e + 50 <= q) ->
   chunkEnd text chunkSize startPos = e)
  /\
  chunkEnd text chunkSize startPos <= strlen text
  /\
  (forall fuel, startPos < strlen text ->
     exists rest,
       emitted (splitLoop (S fuel) text chunkSize overlap startPos [])
       = substring text startPos (chunkEnd text chunkSize startPos) :: rest).
Proof.
  intros e from He.
  pose proof (strlen_nonneg text) as Hlen.
  assert (Hclamp : clamp (e - 100) (strlen text) = from)
    by (unfold clamp, from; lia).
  assert (Hpara : (forall p, occursAt paragraphBreak text p -> from <= p -> e + 100 <= p) ->
                  indexOf text paragraphBreak (e - 100) = -1 \/
                  e + 100 <= indexOf text paragraphBreak (e - 100)).
  { intros Hno.
    destruct (Z.eq_dec (indexOf text paragraphBreak (e - 100)) (-1)) as [|Hne];
      [now left|right].
    destruct (indexOf_found _ _ _ _ eq_refl Hne) as [H1 H2].
    apply Hno; auto. lia. }
  assert (Hsent : (forall q, occursAt sentenceBreak text q -> from <= q -> e + 50 <= q) ->
                  indexOf text sentenceBreak (e - 100) = -1 \/
                  e + 50 <= indexOf text sentenceBreak (e - 100)).
  { intros Hno.
    destruct (Z.eq_dec (indexOf text sentenceBreak (e - 100)) (-1)) as [|Hne];
      [now left|right].
    destruct (indexOf_found _ _ _ _ eq_refl Hne) as [H1 H2].
    apply Hno; auto. lia. }
  unfold chunkEnd. fold e.
  destruct (adjustEnd_lower text e He) as [_ Hbelow].
  repeat split.
  - intros p Hp Hw. pose proof Hp as [Hfrom _].
    rewrite <- Hclamp in Hp. apply firstFrom_indexOf in Hp.
    destruct (adjustEnd_cases text e He)
      as [(Pn & Pw & E) | [(Pw & _ & _ & E) | (Pw & _ & E)]]; lia.
  - intros Hno q Hq Hw. specialize (Hpara Hno). pose proof Hq as [Hfrom _].
    rewrite <- Hclamp in Hq. apply firstFrom_indexOf in Hq.
    destruct (adjustEnd_cases text e He)
      as [(Pn & Pw & E) | [(Pw & _ & _ & E) | (Pw & Qw & E)]]; lia.
  - intros Hno Hno'. specialize (Hpara Hno). specialize (Hsent Hno').
    destruct (adjustEnd_cases text e He)
      as [(Pn & Pw & E) | [(Pw & Qn & Qw & E) | (Pw & Qw & E)]]; lia.
  - lia.
  - intros fuel Hs. rewrite splitLoop_step by assumption.
    fold (chunkEnd text chunkSize startPos). unfold chunkAt.
    destruct ((chunkEnd text chunkSize startPos - overlap >=? strlen text)
              || (chunkEnd text chunkSize startPos =? strlen text)).
    + now exists [].
    + destruct (splitLoop fuel text chunkSize overlap
                  (chunkEnd text chunkSize startPos - overlap) []);
        simpl; eauto.
Qed.

Lemma snapping_first_break_witness :
  chunkEnd Inputs.twoBreaks 20 0 = 10.
Proof.
  assert (He : 0 + 20 < strlen Inputs.twoBreaks) by by_computation.
  apply (proj1 (snapping_first_break Inputs.twoBreaks 20 5 0 He)).
  - change (Z.max (0 + 20 - 100) 0)
      with (clamp (0 + 20 - 100) (strlen Inputs.twoBreaks)).
    apply indexOf_firstFrom; [vm_compute; reflexivity | discriminate].
  - vm_compute; reflexivity.
Defined.

(** C3 (as stated) fails.  In [Inputs.farSentence] the only sentence
    terminator lies exactly at [end + 50] and is not taken: the chunk is
    the single character [a].  In [Inputs.twoBreaks] the paragraph break
    nearest to the proposed end 20 is the one at 20, and the one at 10 is
    taken. *)
Lemma snapping_as_stated_fails :
  ~ Stated.snapping Inputs.farSentence 1 0 /\
  ~ Stated.snapping Inputs.twoBreaks 20 0.
Proof.
  split; intros H.
  - destruct (H ltac:(by_computation)) as [_ H2]. clear H.
    destruct H2 as (q & [Hocc Hwin] & Hchunk).
    + intros p [Hocc _].
      destruct (indexOf_first Inputs.farSentence paragraphBreak 0 p Hocc) as [Hne _].
      * destruct Hocc as [Hp _]. vm_compute clamp. lia.
      * apply Hne. vm_compute; reflexivity.
    + exists 51. split; [|lia]. split; [by_computation|]. vm_compute; reflexivity.
    + assert (Hlen : strlen (chunkAt Inputs.farSentence 1 0) = 1)
        by (vm_compute; reflexivity).
      rewrite Hchunk in Hlen. destruct Hocc as [Hq Hstart].
      change (strlen Inputs.farSentence) with 55 in *.
      assert (Hfit : q + 2 <= 55)
        by (apply (occursAt_fits sentenceBreak Inputs.farSentence q); now split).
      rewrite length_region in Hlen;
        change (strlen Inputs.farSentence) with 55; try lia.
      assert (q = 0) by lia. subst q. vm_compute in Hstart. discriminate.
  - destruct (H ltac:(by_computation)) as [H1 _]. clear H.
    destruct H1 as (p & [[Hocc Hwin] Hnear] & Hchunk).
    + exists 10. split; [|lia]. split; [by_computation|]. vm_compute; reflexivity.
    + assert (H20 : Stated.inWindow paragraphBreak Inputs.twoBreaks
                      (0 + 20 - 100) (0 + 20 + 100) 20).
      { split; [|lia]. split; [by_computation|]. vm_compute; reflexivity. }
      apply Hnear in H20. assert (p = 20) by lia. subst p.
      vm_compute in Hchunk. discriminate.
Qed.

(** C4.  When the overlap is not negative and the run returns, the chunks
    are the regions [start .. end) of the text between cursors of which
    the first start is 0 and every later start is the end before it minus
    the overlap; every chunk starts after the start and ends at or after
    the end of the chunk before it, so that the two share the [overlap]
    characters before that end; and the first chunk followed by every
    later chunk without its first [overlap] characters is the text. *)
Theorem chunks_cover_text (text : jsstring) (chunkSize overlap : Z)
        (fuel : nat) (chunks : list jsstring) :
  0 <= overlap ->
  splitTextIntoChunks fuel text chunkSize overlap = Returned chunks ->
  exists cuts,
    chunks = map (cutRegion text) cuts /\
    Forall (cutInside text) cuts /\
    linked overlap 0 cuts /\
    advancing cuts /\
    reassemble overlap chunks = text.
Proof.
  intros Hov Hrun.
  destruct (splitLoop_covers text chunkSize overlap fuel Hov 0 chunks
              ltac:(lia) Hrun) as (cuts & H1 & H2 & H3 & H4 & _ & H5).
  exists cuts. repeat split; auto.
Qed.

Lemma chunks_cover_text_witness :
  exists cuts,
    [lit "abcd"; lit "defg"; lit "ghij"] = map (cutRegion Inputs.alphabet) cuts /\
    Forall (cutInside Inputs.alphabet) cuts /\
    linked 1 0 cuts /\
    advancing cuts /\
    reassemble 1 [lit "abcd"; lit "defg"; lit "ghij"] = Inputs.alphabet.
Proof.
  apply (chunks_cover_text Inputs.alphabet 4 1 10); [lia | reflexivity].
Defined.

(** C5 (as amended).  A text that is shorter than the chunk size is
    returned as the only chunk when it is not empty; the empty text gives
    no chunk.  One iteration is enough, whatever the overlap. *)
Theorem short_text_chunking (text : jsstring) (chunkSize overlap : Z) (fuel : nat) :
  strlen text < chunkSize ->
  splitTextIntoChunks (S fuel) text chunkSize overlap
  = Returned (match text with [] => [] | _ :: _ => [text] end).
Proof.
  intros Hshort. unfold splitTextIntoChunks.
  destruct text as [|c text].
  - apply splitLoop_done. unfold strlen; simpl; lia.
  - set (t := c :: text) in *.
    assert (Hpos : 0 < strlen t) by (unfold strlen, t; simpl; lia).
    rewrite splitLoop_step by assumption.
    unfold chunkAt. rewrite chunkEnd_at_end by lia.
    rewrite Z.eqb_refl, orb_true_r.
    rewrite substring_region by lia.
    rewrite region_all by lia. reflexivity.
Qed.

Lemma short_text_chunking_witness :
  splitTextIntoChunks 1 Inputs.alphabet 1000 200 = Returned [Inputs.alphabet].
Proof.
  apply (short_text_chunking Inputs.alphabet 1000 200 0). by_computation.
Defined.

(** C5 (as stated) fails: the empty text is shorter than the chunk size
    and gives no chunk at all. *)
Lemma short_text_as_stated_fails : ~ Stated.shortText [] 1000 200.
Proof.
  intros H. destruct (H ltac:(by_computation)) as [fuel Hrun].
  unfold splitTextIntoChunks in Hrun.
  rewrite splitLoop_done in Hrun by (vm_compute; discriminate).
  discriminate.
Qed.

(** C10.  With a positive chunk size every chunk the loop pushes, whether
    the run returns or not, has at most [chunkSize + 99] characters.  The
    adjusted end is at most 99 past the proposed end, and at most 50 past
    it when no paragraph break is taken. *)
Theorem chunk_length_bound (text : jsstring) (chunkSize overlap : Z) (fuel : nat) :
  0 < chunkSize -> 0 <= overlap ->
  Forall (fun chunk => strlen chunk <= chunkSize + 99)
         (emitted (splitTextIntoChunks fuel text chunkSize overlap))
  /\
  (forall e, adjustEnd text e <= e + 99)
  /\
  (forall e,
     indexOf text paragraphBreak (e - 100) = -1 \/
     e + 100 <= indexOf text paragraphBreak (e - 100) ->
     adjustEnd text e <= e + 50).
Proof.
  intros Hcs Hov. repeat split.
  - apply splitLoop_Forall; [| constructor].
    intros s Hs. now apply chunkAt_length.
  - apply adjustEnd_upper.
  - intros e Hno. unfold adjustEnd. bool_to_Z; lia.
Qed.

Lemma chunk_length_bound_witness :
  Forall (fun chunk => strlen chunk <= 20 + 99)
         (emitted (splitTextIntoChunks 3 Inputs.twoBreaks 20 5))
  /\
  (forall e, adjustEnd Inputs.twoBreaks e <= e + 99)
  /\
  (forall e,
     indexOf Inputs.twoBreaks paragraphBreak (e - 100) = -1 \/
     e + 100 <= indexOf Inputs.twoBreaks paragraphBreak (e - 100) ->
     adjustEnd Inputs.twoBreaks e <= e + 50).
Proof.
  apply (chunk_length_bound Inputs.twoBreaks 20 5 3); lia.
Defined.

(* ================================================================== *)
(** * The stable sort *)
(* ================================================================== *)

Section StableSortFacts.
Context {A : Type} (after : A -> A -> bool).

Lemma insertSorted_Permutation (x : A) (l : list A) :
  Permutation (insertSorted after x l) (x :: l).
Proof.
  induction l as [|y l IH]; simpl; auto.
  destruct (after x y); auto.
  rewrite IH. apply perm_swap.
Qed.

Lemma stableSort_Permutation (l : list A) :
  Permutation (stableSort after l) l.
Proof.
  induction l as [|x l IH]; simpl; auto.
  rewrite insertSorted_Permutation. now constructor.
Qed.

(** An order [le] that the comparison decides. *)
Variable le : A -> A -> Prop.
Hypothesis le_trans : forall x y z, le x y -> le y z -> le x z.
Hypothesis after_true : forall x y, after x y = true -> le y x.
Hypothesis after_false : forall x y, after x y = false -> le x y.

Lemma insertSorted_sorted (x : A) (l : list A) :
  StronglySorted le l -> StronglySorted le (insertSorted after x l).
Proof.
  induction 1 as [|y l Hl IH Hy]; simpl.
  - repeat constructor.
  - destruct (after x y) eqn:E.
    + constructor; auto.
      rewrite Forall_forall in *. intros z Hz.
      apply (Permutation_in _ (insertSorted_Permutation x l)) in Hz.
      destruct Hz as [<-|Hz]; auto.
    + constructor; [now constructor|].
      constructor; auto.
      rewrite Forall_forall in *. intros z Hz. eauto.
Qed.

Lemma stableSort_sorted (l : list A) : StronglySorted le (stableSort after l).
Proof.
  induction l as [|x l IH]; simpl; [constructor|].
  now apply insertSorted_sorted.
Qed.
End StableSortFacts.

Lemma StronglySorted_firstn {A : Type} (R : A -> A -> Prop) (n : nat) (l : list A) :
  StronglySorted R l -> StronglySorted R (firstn n l).
Proof.
  intros H. revert n. induction H as [|x l Hl IH Hx]; intros [|n]; simpl;
    try constructor; auto.
  rewrite Forall_forall in *. intros y Hy. apply Hx.
  rewrite <- (firstn_skipn n l). apply in_or_app. now left.
Qed.

Lemma In_firstn {A : Type} (n : nat) (l : list A) (x : A) :
  In x (firstn n l) -> In x l.
Proof.
  intros H. rewrite <- (firstn_skipn n l). apply in_or_app. now left.
Qed.

(** Sortedness on a key is carried to the list the keys were computed
    from. *)
Lemma StronglySorted_map_fst {A : Type} (key : A -> Q) (ps : list (A * Q)) :
  Forall (fun p => snd p = key (fst p)) ps ->
  StronglySorted (fun a b => (snd b <= snd a)%Q) ps ->
  StronglySorted (fun a b => (key b <= key a)%Q) (map fst ps).
Proof.
  intros Hkey Hs. induction Hs as [|p ps Hs IH Hp]; simpl; constructor.
  - apply IH. now inversion Hkey.
  - inversion Hkey as [|? ? Hp0 Hrest]; subst.
    rewrite Forall_forall in *. intros c Hc.
    apply in_map_iff in Hc as (p' & <- & Hin).
    rewrite <- Hp0, <- (Hrest p' Hin). now apply Hp.
Qed.

(** [a.slice(0, n)] for a count [n] keeps the first [n] elements. *)
Lemma slice_firstn {A : Type} (a : list A) (n : nat) :
  slice a 0 (Z.of_nat n) = firstn n a.
Proof.
  unfold slice.
  destruct (Z.ltb_spec 0 0); [lia|]. destruct (Z.ltb_spec (Z.of_nat n) 0); [lia|].
  replace (Z.to_nat (Z.min 0 (Z.of_nat (List.length a)))) with 0%nat by lia.
  simpl skipn.
  destruct (Nat.le_gt_cases n (List.length a)) as [Hle|Hgt].
  - f_equal. lia.
  - rewrite !firstn_all2; auto; lia.
Qed.

(* ================================================================== *)
(** * The storage adapter: statements *)
(* ================================================================== *)

Section Ranking.
Variable calculateCosineSimilarity : vector -> vector -> Q.

Lemma findEmbedded_spec (db : DB) (c : MongoStorage.PopulatedChunk) :
  In c (MongoStorage.findEmbedded db) ->
  In (MongoStorage.chunk c) (chunks db) /\
  DocumentChunk.embedding (MongoStorage.chunk c) <> None.
Proof.
  unfold MongoStorage.findEmbedded. intros H.
  apply in_map_iff in H as (d & <- & Hin).
  apply filter_In in Hin as [Hin Hemb]. simpl. split; auto.
  unfold MongoStorage.hasEmbedding in Hemb.
  destruct (DocumentChunk.embedding d); [discriminate | discriminate].
Qed.

(** C2.  For a limit that is a count, the search returns at most
    [limit] chunks; each of them is a stored chunk whose embedding is
    present; and their similarities to the query vector do not
    increase along the result. *)
Theorem search_returns_ranked_prefix (db : DB) (embedding : vector) (limit : nat) :
  let found :=
    MongoStorage.searchSimilarChunks calculateCosineSimilarity db embedding
      (Z.of_nat limit) in
  (List.length found <= limit)%nat /\
  Forall (fun c => In (MongoStorage.chunk c) (chunks db) /\
                   DocumentChunk.embedding (MongoStorage.chunk c) <> None) found /\
  StronglySorted
    (fun a b =>
       (MongoStorage.similarityTo calculateCosineSimilarity embedding b
        <= MongoStorage.similarityTo calculateCosineSimilarity embedding a)%Q)
    found.
Proof.
  unfold MongoStorage.searchSimilarChunks, Array_sort. cbv zeta.
  rewrite slice_firstn.
  set (after := fun x y : MongoStorage.PopulatedChunk * Q =>
                  negb (Qle_bool (snd y - snd x) 0)).
  set (pairs := map (fun chunk =>
                       (chunk, MongoStorage.similarityTo calculateCosineSimilarity
                                 embedding chunk))
                    (MongoStorage.findEmbedded db)).
  pose proof (stableSort_Permutation after pairs) as Hperm.
  assert (Hpairs : forall p, In p (stableSort after pairs) ->
                     In (fst p) (MongoStorage.findEmbedded db) /\
                     snd p = MongoStorage.similarityTo calculateCosineSimilarity
                               embedding (fst p)).
  { intros p Hp. apply (Permutation_in _ Hperm) in Hp.
    unfold pairs in Hp. apply in_map_iff in Hp as (c & <- & Hc). auto. }
  repeat split.
  - rewrite length_map. apply firstn_le_length.
  - rewrite Forall_forall. intros c Hc.
    apply in_map_iff in Hc as (p & <- & Hp). apply In_firstn in Hp.
    apply findEmbedded_spec. now apply Hpairs.
  - apply StronglySorted_map_fst.
    + rewrite Forall_forall. intros p Hp. apply In_firstn in Hp.
      now apply Hpairs.
    + apply StronglySorted_firstn.
      apply (stableSort_sorted after (fun a b => (snd b <= snd a)%Q)).
      * intros x y z H1 H2. eapply Qle_trans; eauto.
      * intros x y H. unfold after in H. apply negb_true_iff in H.
        assert (Hn : ~ (snd y - snd x <= 0)%Q)
          by (rewrite <- Qle_bool_iff; congruence).
        lra.
      * intros x y H. unfold after in H. apply negb_false_iff in H.
        apply Qle_bool_iff in H. lra.
Qed.
End Ranking.

Lemma findById_Some (id : ObjectId) (docs : list Document.t) (d : Document.t) :
  MongoStorage.findById id docs = Some d -> In d docs /\ Document._id d = id.
Proof.
  unfold MongoStorage.findById. intros H. apply find_some in H as [H1 H2].
  split; auto. now apply N.eqb_eq.
Qed.

Lemma findById_None (id : ObjectId) (docs : list Document.t) :
  MongoStorage.findById id docs = None ->
  forall d, In d docs -> Document._id d <> id.
Proof.
  unfold MongoStorage.findById. intros H d Hd.
  apply (find_none _ _ H) in Hd. now apply N.eqb_neq.
Qed.

Lemma findById_present (id : ObjectId) (docs : list Document.t) :
  (exists d, In d docs /\ Document._id d = id) ->
  exists d, MongoStorage.findById id docs = Some d.
Proof.
  intros (d & Hd & Hid).
  destruct (MongoStorage.findById id docs) eqn:E; eauto.
  exfalso. now apply (findById_None _ _ E d Hd).
Qed.

Lemma removeById_incl (id : ObjectId) (docs : list Document.t) (d : Document.t) :
  In d (MongoStorage.removeById id docs) -> In d docs.
Proof.
  induction docs as [|x docs IH]; simpl; auto.
  destruct (N.eqb (Document._id x) id); simpl; intuition.
Qed.

Lemma removeById_other (id : ObjectId) (docs : list Document.t) (d : Document.t) :
  In d docs -> Document._id d <> id -> In d (MongoStorage.removeById id docs).
Proof.
  induction docs as [|x docs IH]; simpl; auto.
  intros [->|Hin] Hne.
  - destruct (N.eqb_spec (Document._id d) id); [contradiction | now left].
  - destruct (N.eqb (Document._id x) id); simpl; auto.
Qed.

Lemma removeById_unique (id : ObjectId) (docs : list Document.t) (d : Document.t) :
  NoDup (map Document._id docs) ->
  In d (MongoStorage.removeById id docs) -> Document._id d <> id.
Proof.
  induction docs as [|x docs IH]; simpl; [tauto|].
  intros Hnd Hin. inversion Hnd as [|? ? Hx Hrest]; subst.
  destruct (N.eqb_spec (Document._id x) id) as [Heq|Hne].
  - intros Hd. apply Hx. rewrite Heq, <- Hd. now apply in_map.
  - destruct Hin as [<-|Hin]; auto.
Qed.

(** The deletion by an identifier the driver has accepted.  When a
    document with the identifier is stored, [deleteDocument] returns
    [true], no chunk of that document remains, the chunks of the other
    documents and the other documents stay, and with identifiers that are
    unique no document with that identifier remains.  When no document
    has the identifier, it returns [false] and the database is
    unchanged. *)
Lemma deleteDocument_cascades (id : ObjectId) (db : DB) :
  ((exists d, In d (documents db) /\ Document._id d = id) ->
   let after := snd (MongoStorage.deleteDocument id db) in
   fst (MongoStorage.deleteDocument id db) = true /\
   (forall c, In c (chunks after) -> DocumentChunk.documentId c <> id) /\
   (forall c, DocumentChunk.documentId c <> id ->
              (In c (chunks after) <-> In c (chunks db))) /\
   (forall d, Document._id d <> id ->
              (In d (documents after) <-> In d (documents db))) /\
   (NoDup (map Document._id (documents db)) ->
    forall d, In d (documents after) -> Document._id d <> id) /\
   messages after = messages db)
  /\
  ((forall d, In d (documents db) -> Document._id d <> id) ->
   MongoStorage.deleteDocument id db = (false, db)).
Proof.
  split.
  - intros Hex. apply findById_present in Hex as [d Hd].
    unfold MongoStorage.deleteDocument. rewrite Hd. simpl.
    repeat split; auto.
    + intros c Hc. unfold MongoStorage.deleteMany in Hc.
      apply filter_In in Hc as [_ Hc]. apply negb_true_iff in Hc.
      now apply N.eqb_neq.
    + intros Hc. unfold MongoStorage.deleteMany in Hc.
      now apply filter_In in Hc.
    + intros Hc. unfold MongoStorage.deleteMany. apply filter_In. split; auto.
      apply negb_true_iff. now apply N.eqb_neq.
    + apply removeById_incl.
    + intros Hin. now apply removeById_other.
    + intros Hnd d' Hd'. now apply (removeById_unique id (documents db)).
  - intros Hnone. unfold MongoStorage.deleteDocument.
    destruct (MongoStorage.findById id (documents db)) eqn:E; auto.
    apply findById_Some in E as [Hin Hid]. now apply Hnone in Hin.
Qed.

Section DeleteByParameter.
Variable castObjectId : jsstring -> result ObjectId.

(** C7 (as amended).  [deleteDocument] on the string the route passes.
    When the driver takes the string for an identifier and a document
    with it is stored, the result is [true], no chunk of that document
    remains, the other chunks and documents and the messages stay, and
    the route answers 204.  When the driver takes it for an identifier
    that no document has, the result is [false], the database is
    unchanged and the route answers 404.  When the driver refuses the
    string, the call throws the driver's error, the database is unchanged
    and the route answers 500. *)
Theorem deleteDocument_by_parameter (id : jsstring) (db : DB) :
  (forall oid,
     castObjectId id = Ok oid ->
     (exists d, In d (documents db) /\ Document._id d = oid) ->
     let out := MongoStorage.deleteDocumentParam castObjectId id db in
     fst out = Ok true /\
     (forall c, In c (chunks (snd out)) -> DocumentChunk.documentId c <> oid) /\
     (forall c, DocumentChunk.documentId c <> oid ->
                (In c (chunks (snd out)) <-> In c (chunks db))) /\
     (forall d, Document._id d <> oid ->
                (In d (documents (snd out)) <-> In d (documents db))) /\
     (NoDup (map Document._id (documents db)) ->
      forall d, In d (documents (snd out)) -> Document._id d <> oid) /\
     messages (snd out) = messages db /\
     Routes.deleteDocumentsParam castObjectId id db
     = (Routes.mkResponse 204 Routes.NoBody, snd out))
  /\
  (forall oid,
     castObjectId id = Ok oid ->
     (forall d, In d (documents db) -> Document._id d <> oid) ->
     MongoStorage.deleteDocumentParam castObjectId id db = (Ok false, db) /\
     Routes.deleteDocumentsParam castObjectId id db
     = (Routes.mkResponse 404 (Routes.ErrorBody (lit "Document not found")), db))
  /\
  (forall error,
     castObjectId id = Throw error ->
     MongoStorage.deleteDocumentParam castObjectId id db = (Throw error, db) /\
     Routes.deleteDocumentsParam castObjectId id db
     = (Routes.mkResponse 500 (Routes.ErrorBody (lit "Failed to delete document")),
        db)).
Proof.
  unfold Routes.deleteDocumentsParam, MongoStorage.deleteDocumentParam.
  split; [| split].
  - intros oid Hcast Hstored. rewrite Hcast. cbn [fst snd].
    destruct (proj1 (deleteDocument_cascades oid db) Hstored)
      as (E1 & E2 & E3 & E4 & E5 & E6).
    rewrite E1. repeat split; auto; try (now apply E3); try (now apply E4).
  - intros oid Hcast Habsent. rewrite Hcast.
    now rewrite (proj2 (deleteDocument_cascades oid db) Habsent).
  - intros error Hcast. now rewrite Hcast.
Qed.
End DeleteByParameter.

Lemma deleteDocument_by_parameter_witness :
  fst (MongoStorage.deleteDocumentParam Inputs.hexObjectId
         (lit "000000000000000000000001") Inputs.library) = Ok true
  /\
  MongoStorage.deleteDocumentParam Inputs.hexObjectId
    (lit "000000000000000000000003") Inputs.library = (Ok false, Inputs.library)
  /\
  Routes.deleteDocumentsParam Inputs.hexObjectId (lit "abc") Inputs.library
  = (Routes.mkResponse 500 (Routes.ErrorBody (lit "Failed to delete document")),
     Inputs.library).
Proof.
  pose proof (deleteDocument_by_parameter Inputs.hexObjectId) as H.
  split; [| split].
  - destruct (proj1 (H (lit "000000000000000000000001") Inputs.library) 1%N)
      as (E & _).
    + vm_compute. reflexivity.
    + exists Inputs.manual. split; [now left | reflexivity].
    + exact E.
  - destruct (proj1 (proj2 (H (lit "000000000000000000000003") Inputs.library))
                3%N) as (E & _).
    + vm_compute. reflexivity.
    + intros d [<-|[<-|[]]]; discriminate.
    + exact E.
  - destruct (proj2 (proj2 (H (lit "abc") Inputs.library))
                (lit "Cast to ObjectId failed")) as (_ & E).
    + vm_compute. reflexivity.
    + exact E.
Defined.

(** C7 (as stated) fails.  No document has the identifier [abc]; the
    driver refuses the string and the call throws where it is said to
    return [false]. *)
Lemma delete_absent_as_stated_fails :
  ~ Stated.deleteAbsent Inputs.hexObjectId (lit "abc") Inputs.library.
Proof.
  intros H. unfold Stated.deleteAbsent in H.
  assert (Hthrow : MongoStorage.deleteDocumentParam Inputs.hexObjectId (lit "abc")
                     Inputs.library
                   = (Throw (lit "Cast to ObjectId failed"), Inputs.library))
    by (vm_compute; reflexivity).
  rewrite Hthrow in H. discriminate H. intros d _. discriminate.
Qed.

(* ================================================================== *)
(** * The prompt and the chat turn: statements *)
(* ================================================================== *)

Lemma appendExcerpts_app (contextChunks : list MongoStorage.PopulatedChunk)
      (i : nat) (acc : jsstring) :
  OpenAI.appendExcerpts contextChunks i acc
  = acc ++ OpenAI.appendExcerpts contextChunks i [].
Proof.
  revert i acc. induction contextChunks as [|c rest IH]; intros i acc; simpl.
  - now rewrite app_nil_r.
  - rewrite IH. rewrite (IH _ (OpenAI.excerpt i _)). now rewrite app_assoc.
Qed.

(** The text of every chunk is part of the text built from the chunks. *)
Lemma appendExcerpts_contains (contextChunks : list MongoStorage.PopulatedChunk)
      (c : MongoStorage.PopulatedChunk) :
  In c contextChunks ->
  forall i acc, exists before after,
    OpenAI.appendExcerpts contextChunks i acc
    = before ++ DocumentChunk.content (MongoStorage.chunk c) ++ after.
Proof.
  induction contextChunks as [|d rest IH]; intros Hin i acc; [destruct Hin|].
  destruct Hin as [->|Hin]; simpl.
  - rewrite appendExcerpts_app. unfold OpenAI.excerpt.
    exists (acc ++ lit "Document excerpt " ++ numberToString (i + 1) ++ lit ":" ++ [LF]).
    exists ([LF; LF] ++ OpenAI.appendExcerpts rest (S i) []).
    now rewrite <- !app_assoc.
  - apply IH. exact Hin.
Qed.

Lemma getMessages_sorted (db : DB) :
  StronglySorted (fun a b => Message.createdAt a <= Message.createdAt b)
                 (MongoStorage.getMessages db).
Proof.
  unfold MongoStorage.getMessages. apply stableSort_sorted.
  - intros x y z; lia.
  - intros x y H. apply Z.ltb_lt in H. lia.
  - intros x y H. apply Z.ltb_ge in H. lia.
Qed.

Lemma getMessages_Permutation (db : DB) :
  Permutation (MongoStorage.getMessages db) (messages db).
Proof. apply stableSort_Permutation. Qed.

Section ChatTurn.
Variable calculateCosineSimilarity : vector -> vector -> Q.
Variable embeddings_create : jsstring -> option vector.
Variable chat_completions_create : OpenAI.CompletionRequest -> option jsstring.

(** C8.  [generateChatResponse] hands the completion endpoint one
    request, whose messages are the system message followed by the
    messages it was given, unchanged and in their order, and its result
    is the endpoint's answer to that request.  Without chunks the system
    instruction is the one that allows answers from uploaded documents
    only; with chunks it begins with the instruction to answer from the
    excerpts only and contains the content of every chunk.  In a chat
    turn whose query is embedded, the request is made for the chunks the
    search returns and for the whole stored conversation, the new user
    message included, in the order of creation time; it is the only
    completion request of the turn, and the turn saves the endpoint's
    answer to it or fails with status 500 when the endpoint refuses
    it. *)
Theorem prompt_assembly (history : list OpenAI.ChatMessage)
        (contextChunks : list MongoStorage.PopulatedChunk)
        (content : jsstring) (nowUser nowAssistant : Z) (db : DB) :
  let instruction := OpenAI.contextText contextChunks in
  let request :=
    OpenAI.mkRequest (lit "gpt-4o")
      (OpenAI.mkChat system instruction :: history) (3 # 10) 1000 in
  (contextChunks = [] -> instruction = OpenAI.noDocumentsInstruction)
  /\
  (contextChunks <> [] ->
   (exists excerpts, instruction = OpenAI.groundedInstruction ++ excerpts) /\
   forall c, In c contextChunks ->
     exists before after,
       instruction = before ++ DocumentChunk.content (MongoStorage.chunk c) ++ after)
  /\
  (forall reply,
     chat_completions_create request = Some reply ->
     OpenAI.generateChatResponse chat_completions_create history contextChunks
     = Ok reply)
  /\
  (chat_completions_create request = None ->
   OpenAI.generateChatResponse chat_completions_create history contextChunks
   = Throw (lit "Failed to generate response"))
  /\
  (content <> [] ->
   forall embedding,
     embeddings_create content = Some embedding ->
     let userMessage := Message.mk user content nowUser in
     let db1 := snd (MongoStorage.createMessage user content nowUser db) in
     let stored := MongoStorage.getMessages db1 in
     let similarChunks :=
       MongoStorage.searchSimilarChunks calculateCosineSimilarity db1 embedding 5 in
     let turnRequest :=
       OpenAI.mkRequest (lit "gpt-4o")
         (OpenAI.mkChat system (OpenAI.contextText similarChunks)
          :: map Routes.formatMessage stored) (3 # 10) 1000 in
     let out :=
       Routes.postChat calculateCosineSimilarity embeddings_create
         chat_completions_create content nowUser nowAssistant db in
     Permutation stored (messages db ++ [userMessage]) /\
     StronglySorted (fun a b => Message.createdAt a <= Message.createdAt b) stored /\
     In (Routes.CompletionCall turnRequest) (snd out) /\
     (forall other, In (Routes.CompletionCall other) (snd out) ->
                    other = turnRequest) /\
     (forall reply,
        chat_completions_create turnRequest = Some reply ->
        Routes.status (fst (fst out)) = 200 /\
        messages (snd (fst out))
        = messages db ++ [userMessage; Message.mk assistant reply nowAssistant]) /\
     (chat_completions_create turnRequest = None ->
      Routes.status (fst (fst out)) = 500)).
Proof.
  intros instruction request.
  split; [| split; [| split; [| split; [| ]]]].
  - intros ->. reflexivity.
  - intros Hne. unfold instruction, OpenAI.contextText.
    destruct contextChunks as [|c rest]; [contradiction|].
    cbn [List.length Nat.ltb Nat.leb]. split.
    + rewrite appendExcerpts_app. eauto.
    + intros d Hd. now apply appendExcerpts_contains.
  - intros reply Hreply. unfold OpenAI.generateChatResponse.
    change (OpenAI.completionRequest history contextChunks) with request.
    now rewrite Hreply.
  - intros Hnone. unfold OpenAI.generateChatResponse.
    change (OpenAI.completionRequest history contextChunks) with request.
    now rewrite Hnone.
  - intros Hcontent embedding Hemb userMessage db1 stored similarChunks
           turnRequest out.
    assert (Hperm : Permutation stored (messages db ++ [userMessage]))
      by apply (getMessages_Permutation db1).
    assert (Hsorted : StronglySorted
                        (fun a b => Message.createdAt a <= Message.createdAt b)
                        stored)
      by apply getMessages_sorted.
    split; [exact Hperm | split; [exact Hsorted |]].
    subst out. unfold Routes.postChat.
    destruct content as [|ch content']; [contradiction|].
    set (text := ch :: content') in *.
    cbn [MongoStorage.createMessage]. fold userMessage.
    unfold OpenAI.generateEmbedding, OpenAI.generateChatResponse. rewrite Hemb.
    change (OpenAI.completionRequest
              (map Routes.formatMessage
                 (MongoStorage.getMessages
                    {| documents := documents db;
                       chunks := chunks db;
                       messages := messages db ++ [userMessage] |}))
              (MongoStorage.searchSimilarChunks calculateCosineSimilarity
                 {| documents := documents db;
                    chunks := chunks db;
                    messages := messages db ++ [userMessage] |} embedding 5))
      with turnRequest.
    destruct (chat_completions_create turnRequest) as [answer|];
      cbn [fst snd Routes.status messages].
    + split; [cbn; auto | split; [| split]].
      * intros other H. cbn in H.
        destruct H as [H|[H|[H|[H|[]]]]]; try discriminate. now inversion H.
      * intros reply H. inversion H; subst answer.
        split; [reflexivity | now rewrite <- app_assoc].
      * discriminate.
    + split; [cbn; auto | split; [| split]].
      * intros other H. cbn in H.
        destruct H as [H|[H|[H|[]]]]; try discriminate. now inversion H.
      * discriminate.
      * reflexivity.
Qed.

(** C6.  The user message is saved first.  When the embedding of the
    query is refused, or the completion is refused, the turn answers
    with status 500, the stored conversation is the earlier one
    followed by the user message alone, and no other message was
    saved. *)
Theorem failed_turn_keeps_user_message
        (content : jsstring) (nowUser nowAssistant : Z) (db : DB) :
  content <> [] ->
  let userMessage := Message.mk user content nowUser in
  let db1 := snd (MongoStorage.createMessage user content nowUser db) in
  (embeddings_create content = None \/
   exists embedding,
     embeddings_create content = Some embedding /\
     chat_completions_create
       (OpenAI.completionRequest
          (map Routes.formatMessage (MongoStorage.getMessages db1))
          (MongoStorage.searchSimilarChunks calculateCosineSimilarity
             db1 embedding 5)) = None) ->
  let out :=
  Routes.postChat calculateCosineSimilarity embeddings_create
    chat_completions_create content nowUser nowAssistant db in
  Routes.status (fst (fst out)) = 500 /\
  messages (snd (fst out)) = messages db ++ [userMessage] /\
  documents (snd (fst out)) = documents db /\
  chunks (snd (fst out)) = chunks db /\
  (exists rest,
     snd out = Routes.SavedMessage userMessage
               :: Routes.EmbeddingCall content :: rest) /\
  (forall m, In (Routes.SavedMessage m) (snd out) -> m = userMessage).
Proof.
  intros Hne userMessage db1 Hfail out. subst out.
  unfold Routes.postChat.
  destruct content as [|ch content']; [contradiction|].
  set (content := ch :: content') in *.
  cbn [MongoStorage.createMessage]. fold userMessage.
  unfold OpenAI.generateEmbedding, OpenAI.generateChatResponse.
  destruct Hfail as [Hemb | (embedding & Hemb & Hgen)]; rewrite Hemb.
  - cbn. repeat split; eauto.
    intros m [H|[H|[]]]; [now inversion H | discriminate].
  - unfold db1 in Hgen. cbn [MongoStorage.createMessage snd] in Hgen.
    fold userMessage in Hgen. rewrite Hgen.
    cbn. repeat split; eauto.
    intros m [H|[H|[H|[]]]]; [now inversion H | discriminate | discriminate].
Qed.
End ChatTurn.

Lemma prompt_assembly_witness :
  exists instruction,
    (exists excerpts, instruction = OpenAI.groundedInstruction ++ excerpts) /\
    In (Routes.CompletionCall
          (OpenAI.mkRequest (lit "gpt-4o")
             [OpenAI.mkChat system instruction;
              OpenAI.mkChat user (lit "Hi.");
              OpenAI.mkChat assistant (lit "Ask me about your documents.");
              OpenAI.mkChat user (lit "hello")]
             (3 # 10) 1000))
       (snd (Routes.postChat Inputs.dot Inputs.unitEmbedding Inputs.echoCompletion
               (lit "hello") 9 10 Inputs.conversation))
    /\
    messages
      (snd (fst (Routes.postChat Inputs.dot Inputs.unitEmbedding
                   Inputs.echoCompletion (lit "hello") 9 10 Inputs.conversation)))
    = messages Inputs.conversation
      ++ [Message.mk user (lit "hello") 9;
          Message.mk assistant (lit "I can only answer from your documents.") 10].
Proof.
  set (similarChunks :=
         MongoStorage.searchSimilarChunks Inputs.dot
           (snd (MongoStorage.createMessage user (lit "hello") 9 Inputs.conversation))
           [1%Q; 0%Q] 5).
  destruct (prompt_assembly Inputs.dot Inputs.unitEmbedding Inputs.echoCompletion
              [] similarChunks (lit "hello") 9 10 Inputs.conversation)
    as (_ & Hgrounded & _ & _ & Hturn).
  destruct (Hturn ltac:(discriminate) [1%Q; 0%Q] eq_refl)
    as (_ & _ & Hcall & _ & Hsaved & _).
  exists (OpenAI.contextText similarChunks). split; [| split].
  - apply Hgrounded. vm_compute. discriminate.
  - exact Hcall.
  - exact (proj2 (Hsaved (lit "I can only answer from your documents.") eq_refl)).
Defined.

Lemma failed_turn_keeps_user_message_witness :
  let out :=
    Routes.postChat Inputs.zeroSimilarity Inputs.noEmbedding Inputs.noCompletion
      (lit "hello") 1 2 Inputs.library in
  Routes.status (fst (fst out)) = 500 /\
  messages (snd (fst out)) = [Message.mk user (lit "hello") 1].
Proof.
  destruct (failed_turn_keeps_user_message Inputs.zeroSimilarity
              Inputs.noEmbedding Inputs.noCompletion (lit "hello") 1 2
              Inputs.library) as (H1 & H2 & _).
  - discriminate.
  - left. reflexivity.
  - split; [exact H1 | exact H2].
Defined.

(* ================================================================== *)
(** * The upload: statements *)
(* ================================================================== *)

Lemma jsstring_eqb_eq (a b : jsstring) : jsstring_eqb a b = true <-> a = b.
Proof.
  unfold jsstring_eqb. destruct (list_eq_dec ascii_dec a b); split; auto.
  discriminate.
Qed.

Lemma jsstring_eqb_neq (a b : jsstring) : jsstring_eqb a b = false <-> a <> b.
Proof.
  unfold jsstring_eqb. destruct (list_eq_dec ascii_dec a b); split; auto;
    try discriminate. contradiction.
Qed.

Lemma existsSync_unlinkSync (p : jsstring) (files : DocumentProcessor.FileSystem) :
  DocumentProcessor.existsSync p (DocumentProcessor.unlinkSync p files) = false.
Proof.
  unfold DocumentProcessor.existsSync, DocumentProcessor.unlinkSync.
  induction files as [|[q bytes] files IH]; simpl; auto.
  destruct (jsstring_eqb q p) eqn:E; simpl; auto.
  now rewrite E.
Qed.

Lemma existsSync_unlinkSync_other (p q : jsstring)
      (files : DocumentProcessor.FileSystem) :
  q <> p ->
  DocumentProcessor.existsSync q (DocumentProcessor.unlinkSync p files)
  = DocumentProcessor.existsSync q files.
Proof.
  intros Hne.
  unfold DocumentProcessor.existsSync, DocumentProcessor.unlinkSync.
  induction files as [|[r bytes] files IH]; simpl; auto.
  destruct (jsstring_eqb r p) eqn:E; simpl.
  - apply jsstring_eqb_eq in E. subst r.
    assert (Hq : jsstring_eqb p q = false)
      by (apply jsstring_eqb_neq; congruence).
    now rewrite Hq.
  - now rewrite IH.
Qed.

Section Upload.
Variable extname : jsstring -> jsstring.
Variable pdfParse : list ascii -> result jsstring.
Variable extractRawText : list ascii -> result jsstring.
Variable utf8 : list ascii -> jsstring.

(** C9.  An extension other than [.pdf], [.docx], [.txt] and [.md]
    makes the extraction throw.  Whenever the extraction throws,
    [processFile] throws the same error; the documents, the chunks, the
    identifiers handed out and the embedding requests are what they
    were; the uploaded file is gone from the upload directory and the
    other files are kept; and the route answers with status 500. *)
Theorem extraction_failure_aborts_upload
        (file : DocumentProcessor.UploadedFile) (originalName : jsstring)
        (now : Z) (w : DocumentProcessor.World) :
  let fileExtension := toLowerCase (extname originalName) in
  (~ In fileExtension [lit ".pdf"; lit ".docx"; lit ".txt"; lit ".md"] ->
   DocumentProcessor.extractText pdfParse extractRawText utf8
     fileExtension file (DocumentProcessor.fs w)
   = Throw (lit "Unsupported file type"))
  /\
  (forall error,
     DocumentProcessor.extractText pdfParse extractRawText utf8
     fileExtension file (DocumentProcessor.fs w) = Throw error ->
     let out :=
     DocumentProcessor.processFile extname pdfParse extractRawText utf8
       file originalName now w in
     fst out = Throw error /\
     DocumentProcessor.db (snd out) = DocumentProcessor.db w /\
     DocumentProcessor.nextId (snd out) = DocumentProcessor.nextId w /\
     DocumentProcessor.pendingEmbeddings (snd out)
     = DocumentProcessor.pendingEmbeddings w /\
     (DocumentProcessor.path file <> [] ->
      DocumentProcessor.existsSync (DocumentProcessor.path file)
        (DocumentProcessor.fs (snd out)) = false) /\
     (forall p, p <> DocumentProcessor.path file ->
        DocumentProcessor.existsSync p (DocumentProcessor.fs (snd out))
        = DocumentProcessor.existsSync p (DocumentProcessor.fs w)) /\
     (DocumentProcessor.originalname file = originalName ->
      Routes.postDocuments extname pdfParse extractRawText utf8 (Some file) now w
      = (Routes.mkResponse 500 (Routes.ErrorBody (lit "Failed to upload document")),
         snd out))).
Proof.
  intros fileExtension. split.
  - intros Hnot. unfold DocumentProcessor.extractText.
    assert (H1 : jsstring_eqb fileExtension (lit ".pdf") = false)
      by (apply jsstring_eqb_neq; intros E; apply Hnot; rewrite E; simpl; auto).
    assert (H2 : jsstring_eqb fileExtension (lit ".docx") = false)
      by (apply jsstring_eqb_neq; intros E; apply Hnot; rewrite E; simpl; auto).
    assert (H3 : jsstring_eqb fileExtension (lit ".txt") = false)
      by (apply jsstring_eqb_neq; intros E; apply Hnot; rewrite E; simpl; auto).
    assert (H4 : jsstring_eqb fileExtension (lit ".md") = false)
      by (apply jsstring_eqb_neq; intros E; apply Hnot; rewrite E; simpl; auto).
    now rewrite H1, H2, H3, H4.
  - intros error Hthrow out.
    assert (Hout : out
              = (Throw error,
                 {| DocumentProcessor.db := DocumentProcessor.db w;
                    DocumentProcessor.fs :=
                      match DocumentProcessor.path file with
                      | [] => DocumentProcessor.fs w
                      | _ :: _ =>
                          if DocumentProcessor.existsSync
                               (DocumentProcessor.path file)
                               (DocumentProcessor.fs w)
                          then DocumentProcessor.unlinkSync
                                 (DocumentProcessor.path file)
                                 (DocumentProcessor.fs w)
                          else DocumentProcessor.fs w
                      end;
                    DocumentProcessor.nextId := DocumentProcessor.nextId w;
                    DocumentProcessor.pendingEmbeddings :=
                      DocumentProcessor.pendingEmbeddings w |})).
    { unfold out, DocumentProcessor.processFile.
      fold fileExtension. now rewrite Hthrow. }
    repeat split; try (rewrite Hout; reflexivity).
    + intros Hpath. rewrite Hout. cbn [snd DocumentProcessor.fs].
      destruct (DocumentProcessor.path file) as [|c p] eqn:Ep; [contradiction|].
      destruct (DocumentProcessor.existsSync (c :: p) (DocumentProcessor.fs w))
        eqn:Ex; auto.
      apply existsSync_unlinkSync.
    + intros p Hp. rewrite Hout. cbn [snd DocumentProcessor.fs].
      destruct (DocumentProcessor.path file) as [|c q] eqn:Ep; auto.
      destruct (DocumentProcessor.existsSync (c :: q) (DocumentProcessor.fs w));
        auto.
      now apply existsSync_unlinkSync_other.
    + intros Hname. unfold Routes.postDocuments.
      rewrite Hname. fold out. now rewrite Hout.
Qed.
End Upload.

Lemma extraction_failure_aborts_upload_witness :
  let out :=
    DocumentProcessor.processFile Inputs.extnameOfFileName Inputs.failingParser
      Inputs.failingParser Inputs.latin1 Inputs.setup (lit "setup.exe") 30
      Inputs.afterUpload in
  fst out = Throw (lit "Unsupported file type") /\
  DocumentProcessor.db (snd out) = Inputs.emptyDB /\
  DocumentProcessor.existsSync (DocumentProcessor.path Inputs.setup)
    (DocumentProcessor.fs (snd out)) = false.
Proof.
  pose proof (extraction_failure_aborts_upload Inputs.extnameOfFileName
                Inputs.failingParser Inputs.failingParser Inputs.latin1
                Inputs.setup (lit "setup.exe") 30 Inputs.afterUpload)
    as [Hunsupported Hatomic].
  assert (Hthrow := Hunsupported
    ltac:(intros [H|[H|[H|[H|[]]]]]; vm_compute in H; discriminate)).
  destruct (Hatomic _ Hthrow) as (H1 & H2 & _ & _ & H5 & _).
  split; [exact H1 | split; [exact H2 | apply H5; discriminate]].
Defined.

(* ================================================================== *)
(** * More about the chunker *)
(* ================================================================== *)

(** From a cursor that is stuck the loop pushes one chunk in every
    iteration it is given. *)
Lemma stuck_pushes (text : jsstring) (chunkSize overlap : Z) (fuel : nat) :
  forall startPos chunks,
    stuck text chunkSize overlap startPos ->
    exists sofar,
      splitLoop fuel text chunkSize overlap startPos chunks = OutOfFuel sofar /\
      List.length sofar = (List.length chunks + fuel)%nat.
Proof.
  induction fuel as [|fuel IH]; intros s acc Hst;
    pose proof Hst as (Hs & He & Hno); simpl.
  - destruct (Z.ltb_spec s (strlen text)); [| lia].
    exists acc. split; auto.
  - destruct (Z.ltb_spec s (strlen text)); [| lia].
    replace ((chunkEnd text chunkSize s - overlap >=? strlen text)
             || (chunkEnd text chunkSize s =? strlen text)) with false.
    + destruct (IH (chunkEnd text chunkSize s - overlap)
                  (acc ++ [substring text s (chunkEnd text chunkSize s)])
                  (stuck_next _ _ _ _ Hst)) as (sofar & Hrun & Hlen).
      exists sofar. split; auto. rewrite Hlen, length_app. simpl. lia.
    + symmetry. apply orb_false_iff. split.
      * rewrite Z.geb_leb. apply Z.leb_gt. lia.
      * apply Z.eqb_neq. lia.
Qed.

(** The shape of a run that returns, from a cursor that is not negative:
    no chunk is empty, every chunk but the last has at least
    [chunkSize - 100] characters, and every chunk but the last moved the
    start forward by at least [chunkSize - overlap - 100]. *)
Lemma splitLoop_profile (text : jsstring) (chunkSize overlap : Z) (fuel : nat) :
  0 <= overlap ->
  forall startPos chunks,
    0 <= startPos ->
    splitLoop fuel text chunkSize overlap startPos [] = Returned chunks ->
    Forall (fun chunk => chunk <> []) chunks /\
    Forall (fun chunk => chunkSize - 100 <= strlen chunk) (removelast chunks) /\
    (startPos < strlen text ->
     chunks <> [] /\
     (Z.of_nat (List.length chunks) - 1) * (chunkSize - overlap - 100) + startPos
     < strlen text).
Proof.
  intros Hov. induction fuel as [|fuel IH]; intros s chunks Hs Hrun.
  - simpl in Hrun. destruct (Z.ltb_spec s (strlen text)); [discriminate|].
    inversion Hrun; subst. simpl. repeat split; auto; lia.
  - destruct (Z.lt_ge_cases s (strlen text)) as [Hlt|Hge].
    2:{ rewrite splitLoop_done in Hrun by lia. inversion Hrun; subst.
        simpl. repeat split; auto; lia. }
    pose proof (returned_step _ _ _ _ _ _ Hlt Hrun) as Hstep.
    pose proof (chunkEnd_le text chunkSize s) as Hle.
    rewrite splitLoop_step in Hrun by assumption.
    unfold chunkAt in Hrun.
    set (e := chunkEnd text chunkSize s) in *.
    destruct ((e - overlap >=? strlen text) || (e =? strlen text)) eqn:Efin.
    + assert (He : e = strlen text).
      { apply orb_true_iff in Efin as [Efin|Efin].
        - rewrite Z.geb_leb in Efin. apply Z.leb_le in Efin. lia.
        - now apply Z.eqb_eq. }
      inversion Hrun; subst chunks.
      assert (Hlen : strlen (substring text s e) = e - s).
      { rewrite substring_region by lia. apply length_region; lia. }
      simpl. repeat split; auto; try lia; try discriminate.
      constructor; auto. intros E. rewrite E in Hlen. unfold strlen in Hlen.
      simpl in Hlen. lia.
    + apply orb_false_iff in Efin as [_ Efin]. apply Z.eqb_neq in Efin.
      destruct Hstep as [|Hadv]; [contradiction|].
      apply onChunks_returned in Hrun as (rest & Hrest & ->).
      destruct (IH (e - overlap) rest ltac:(lia) Hrest) as (Hne & Hinner & Hcount).
      destruct (Hcount ltac:(lia)) as [Hrest_ne Hbound].
      destruct (chunkEnd_before_end text chunkSize s ltac:(fold e; lia))
        as [Hbefore Hadj]. fold e in Hadj.
      pose proof (adjustEnd_lower text _ Hbefore) as [Hlow _].
      assert (Hlen : strlen (substring text s e) = e - s).
      { rewrite substring_region by lia. apply length_region; lia. }
      repeat split; try discriminate.
      * constructor; auto. intros E. rewrite E in Hlen. unfold strlen in Hlen.
        simpl in Hlen. lia.
      * destruct rest as [|c rest']; [contradiction|].
        change (removelast (substring text s e :: c :: rest'))
          with (substring text s e :: removelast (c :: rest')).
        constructor; auto. lia.
      * cbn [List.length]. rewrite Nat2Z.inj_succ. lia.
Qed.

(** X1.  When the chunk size exceeds the overlap by more than 100, the
    loop returns for every text within as many iterations as the text has
    characters. *)
Theorem wide_gap_chunking_returns (text : jsstring) (chunkSize overlap : Z) :
  100 < chunkSize - overlap ->
  exists chunks,
    splitTextIntoChunks (List.length text) text chunkSize overlap = Returned chunks.
Proof.
  intros Hgap. apply splitLoop_returns; auto. unfold strlen. lia.
Qed.

Lemma wide_gap_chunking_returns_witness :
  exists chunks,
    splitTextIntoChunks (List.length Inputs.greeting) Inputs.greeting 1000 200
    = Returned chunks.
Proof.
  apply (wide_gap_chunking_returns Inputs.greeting 1000 200). lia.
Defined.

(** X2.  When the chunk size is at most 100 and smaller than the text,
    and the first paragraph break of the text lies at an index that is at
    most the overlap, the loop never returns: whatever the number of
    iterations it is given, it uses them all and has pushed one chunk in
    each. *)
Theorem early_break_never_returns (text : jsstring) (chunkSize overlap p : Z) :
  0 <= overlap < chunkSize -> chunkSize <= 100 -> chunkSize < strlen text ->
  firstFrom paragraphBreak text 0 p -> p <= overlap ->
  forall fuel, exists sofar,
    splitTextIntoChunks fuel text chunkSize overlap = OutOfFuel sofar /\
    List.length sofar = fuel.
Proof.
  intros Hov Hsmall Hshort Hfirst Hp fuel.
  assert (Hclamp : clamp (0 + chunkSize - 100) (strlen text) = 0)
    by (unfold clamp; lia).
  pose proof Hfirst as (Hp0 & Hocc & _).
  pose proof (occursAt_fits _ _ _ Hocc) as Hfit.
  change (strlen paragraphBreak) with 2 in Hfit.
  rewrite <- Hclamp in Hfirst. apply firstFrom_indexOf in Hfirst.
  assert (Hend : chunkEnd text chunkSize 0 = p).
  { unfold chunkEnd.
    destruct (adjustEnd_cases text (0 + chunkSize) ltac:(lia))
      as [(_ & _ & E) | [(Pw & _) | (Pw & _)]]; lia. }
  destruct (stuck_pushes text chunkSize overlap fuel 0 [])
    as (sofar & Hrun & Hlen).
  - unfold stuck. rewrite Hend. lia.
  - exists sofar. split; auto.
Qed.

Lemma early_break_never_returns_witness :
  exists sofar,
    splitTextIntoChunks 7 Inputs.greeting 100 20 = OutOfFuel sofar /\
    List.length sofar = 7%nat.
Proof.
  apply (early_break_never_returns Inputs.greeting 100 20 6); try lia.
  - by_computation.
  - change 0 with (clamp 0 (strlen Inputs.greeting)).
    apply indexOf_firstFrom; [vm_compute; reflexivity | discriminate].
Defined.

(** X3.  With an overlap that is not negative, a run that returns has
    pushed no empty chunk. *)
Theorem returned_chunks_are_not_empty (text : jsstring) (chunkSize overlap : Z)
        (fuel : nat) (chunks : list jsstring) :
  0 <= overlap ->
  splitTextIntoChunks fuel text chunkSize overlap = Returned chunks ->
  Forall (fun chunk => chunk <> []) chunks.
Proof.
  intros Hov Hrun.
  now destruct (splitLoop_profile text chunkSize overlap fuel Hov 0 chunks
                  ltac:(lia) Hrun) as (H & _).
Qed.

Lemma returned_chunks_are_not_empty_witness :
  Forall (fun chunk => chunk <> []) [lit "abcd"; lit "defg"; lit "ghij"].
Proof.
  apply (returned_chunks_are_not_empty Inputs.alphabet 4 1 10);
    [lia | reflexivity].
Defined.

(** X4.  With an overlap that is not negative, a run that returns on a
    text that is not empty has pushed [n] chunks with
    [(n - 1) * (chunkSize - overlap - 100)] below the length of the text:
    for the sizes 1000 and 200 that is at most one chunk, and so one
    embedding request, per 700 characters, and one more. *)
Theorem chunk_count_bound (text : jsstring) (chunkSize overlap : Z)
        (fuel : nat) (chunks : list jsstring) :
  0 <= overlap -> text <> [] ->
  splitTextIntoChunks fuel text chunkSize overlap = Returned chunks ->
  chunks <> [] /\
  (Z.of_nat (List.length chunks) - 1) * (chunkSize - overlap - 100) < strlen text.
Proof.
  intros Hov Hne Hrun.
  destruct (splitLoop_profile text chunkSize overlap fuel Hov 0 chunks
              ltac:(lia) Hrun) as (_ & _ & H).
  assert (Hpos : 0 < strlen text).
  { destruct text; [contradiction|]. unfold strlen. simpl. lia. }
  destruct (H Hpos). split; auto. lia.
Qed.

Lemma chunk_count_bound_witness :
  emitted (splitTextIntoChunks 3 Inputs.plain 150 10) <> [] /\
  (Z.of_nat (List.length (emitted (splitTextIntoChunks 3 Inputs.plain 150 10))) - 1)
  * (150 - 10 - 100) < strlen Inputs.plain.
Proof.
  apply (chunk_count_bound Inputs.plain 150 10 3);
    [lia | discriminate | vm_compute; reflexivity].
Defined.

(** X5.  With an overlap that is not negative, every chunk of a run that
    returns, the last one apart, has at least [chunkSize - 100]
    characters. *)
Theorem inner_chunks_lower_bound (text : jsstring) (chunkSize overlap : Z)
        (fuel : nat) (chunks : list jsstring) :
  0 <= overlap ->
  splitTextIntoChunks fuel text chunkSize overlap = Returned chunks ->
  Forall (fun chunk => chunkSize - 100 <= strlen chunk) (removelast chunks).
Proof.
  intros Hov Hrun.
  now destruct (splitLoop_profile text chunkSize overlap fuel Hov 0 chunks
                  ltac:(lia) Hrun) as (_ & H & _).
Qed.

Lemma inner_chunks_lower_bound_witness :
  Forall (fun chunk => 150 - 100 <= strlen chunk)
         (removelast (emitted (splitTextIntoChunks 3 Inputs.plain 150 10))).
Proof.
  apply (inner_chunks_lower_bound Inputs.plain 150 10 3);
    [lia | vm_compute; reflexivity].
Defined.

(* ================================================================== *)
(** * More about the storage adapter *)
(* ================================================================== *)

Lemma In_slice {A : Type} (a : list A) (s e : Z) (x : A) :
  In x (slice a s e) -> In x a.
Proof.
  unfold slice. intros H. apply In_firstn in H.
  rewrite <- (firstn_skipn (Z.to_nat
    (if s <? 0 then Z.max (Z.of_nat (List.length a) + s) 0
     else Z.min s (Z.of_nat (List.length a)))) a).
  apply in_or_app. now right.
Qed.

Lemma StronglySorted_firstn_skipn {A : Type} (R : A -> A -> Prop) (n : nat)
      (l : list A) :
  StronglySorted R l ->
  forall a b, In a (firstn n l) -> In b (skipn n l) -> R a b.
Proof.
  intros H. revert n. induction H as [|x l Hl IH Hx]; intros [|n] a b Ha Hb;
    simpl in *; try contradiction.
  destruct Ha as [<-|Ha].
  - rewrite Forall_forall in Hx. apply Hx.
    rewrite <- (firstn_skipn n l). apply in_or_app. now right.
  - eapply IH; eauto.
Qed.

Section RankingMore.
Variable calculateCosineSimilarity : vector -> vector -> Q.

(** The search ranks all chunks that have an embedding once, and a limit
    that is a count cuts the ranking after that many. *)
Lemma search_ranking (db : DB) (embedding : vector) :
  exists ranked,
    Permutation ranked (MongoStorage.findEmbedded db) /\
    StronglySorted
      (fun a b =>
         (MongoStorage.similarityTo calculateCosineSimilarity embedding b
          <= MongoStorage.similarityTo calculateCosineSimilarity embedding a)%Q)
      ranked /\
    (forall limit : nat,
       MongoStorage.searchSimilarChunks calculateCosineSimilarity db embedding
         (Z.of_nat limit) = firstn limit ranked) /\
    (forall (limit : Z) c,
       In c (MongoStorage.searchSimilarChunks calculateCosineSimilarity db
               embedding limit) -> In c ranked).
Proof.
  unfold MongoStorage.searchSimilarChunks, Array_sort. cbv zeta.
  set (after := fun x y : MongoStorage.PopulatedChunk * Q =>
                  negb (Qle_bool (snd y - snd x) 0)).
  set (pairs := map (fun chunk =>
                       (chunk, MongoStorage.similarityTo calculateCosineSimilarity
                                 embedding chunk))
                    (MongoStorage.findEmbedded db)).
  pose proof (stableSort_Permutation after pairs) as Hperm.
  exists (map fst (stableSort after pairs)). repeat split.
  - rewrite (Permutation_map fst Hperm). unfold pairs.
    rewrite map_map. simpl. rewrite map_id. reflexivity.
  - apply StronglySorted_map_fst.
    + rewrite Forall_forall. intros p Hp.
      apply (Permutation_in _ Hperm) in Hp. unfold pairs in Hp.
      apply in_map_iff in Hp as (c & <- & _). reflexivity.
    + apply (stableSort_sorted after (fun a b => (snd b <= snd a)%Q)).
      * intros x y z H1 H2. eapply Qle_trans; eauto.
      * intros x y H. unfold after in H. apply negb_true_iff in H.
        assert (Hn : ~ (snd y - snd x <= 0)%Q)
          by (rewrite <- Qle_bool_iff; congruence).
        lra.
      * intros x y H. unfold after in H. apply negb_false_iff in H.
        apply Qle_bool_iff in H. lra.
  - intros limit. rewrite slice_firstn. now rewrite firstn_map.
  - intros limit c Hc. apply in_map_iff in Hc as (p & <- & Hp).
    apply In_slice in Hp. now apply in_map.
Qed.

(** X6.  The chunks the search returns are the best ones: together with
    the embedded chunks it leaves out they are all the embedded chunks,
    and none that is left out is more similar to the query than one that
    is returned. *)
Theorem search_returns_the_most_similar (db : DB) (embedding : vector) (limit : nat) :
  exists leftOut,
    Permutation
      (MongoStorage.searchSimilarChunks calculateCosineSimilarity db embedding
         (Z.of_nat limit) ++ leftOut)
      (MongoStorage.findEmbedded db) /\
    forall a b,
      In a (MongoStorage.searchSimilarChunks calculateCosineSimilarity db
              embedding (Z.of_nat limit)) ->
      In b leftOut ->
      (MongoStorage.similarityTo calculateCosineSimilarity embedding b
       <= MongoStorage.similarityTo calculateCosineSimilarity embedding a)%Q.
Proof.
  destruct (search_ranking db embedding) as (ranked & Hperm & Hsorted & Hcut & _).
  exists (skipn limit ranked). rewrite Hcut. split.
  - now rewrite firstn_skipn.
  - intros a b Ha Hb.
    exact (StronglySorted_firstn_skipn _ limit ranked Hsorted a b Ha Hb).
Qed.

(** X7.  With a limit of at least the number of chunks that have an
    embedding, the search returns every one of them, once. *)
Theorem search_with_large_limit_returns_all (db : DB) (embedding : vector)
        (limit : nat) :
  (List.length (filter MongoStorage.hasEmbedding (chunks db)) <= limit)%nat ->
  Permutation
    (MongoStorage.searchSimilarChunks calculateCosineSimilarity db embedding
       (Z.of_nat limit))
    (MongoStorage.findEmbedded db).
Proof.
  intros Hlimit.
  destruct (search_ranking db embedding) as (ranked & Hperm & _ & Hcut & _).
  rewrite Hcut, firstn_all2; auto.
  rewrite (Permutation_length Hperm). unfold MongoStorage.findEmbedded.
  now rewrite length_map.
Qed.

(** X8.  A smaller limit gives the beginning of what a larger limit
    gives. *)
Theorem search_limits_are_prefixes (db : DB) (embedding : vector) (n m : nat) :
  (n <= m)%nat ->
  MongoStorage.searchSimilarChunks calculateCosineSimilarity db embedding (Z.of_nat n)
  = firstn n (MongoStorage.searchSimilarChunks calculateCosineSimilarity db
                embedding (Z.of_nat m)).
Proof.
  intros Hnm.
  destruct (search_ranking db embedding) as (ranked & _ & _ & Hcut & _).
  rewrite !Hcut, firstn_firstn. f_equal. lia.
Qed.
End RankingMore.

Lemma search_with_large_limit_returns_all_witness :
  Permutation
    (MongoStorage.searchSimilarChunks Inputs.dot Inputs.library [1%Q; 0%Q]
       (Z.of_nat 5))
    (MongoStorage.findEmbedded Inputs.library).
Proof.
  apply (search_with_large_limit_returns_all Inputs.dot Inputs.library
           [1%Q; 0%Q] 5).
  vm_compute. lia.
Defined.

Lemma search_limits_are_prefixes_witness :
  MongoStorage.searchSimilarChunks Inputs.dot Inputs.library [1%Q; 0%Q] (Z.of_nat 1)
  = firstn 1 (MongoStorage.searchSimilarChunks Inputs.dot Inputs.library
                [1%Q; 0%Q] (Z.of_nat 5)).
Proof.
  apply (search_limits_are_prefixes Inputs.dot Inputs.library [1%Q; 0%Q] 1 5).
  lia.
Defined.

Lemma setEmbedding_length (id : ObjectId) (v : vector) (cs : list DocumentChunk.t) :
  List.length (snd (MongoStorage.setEmbedding id v cs)) = List.length cs.
Proof.
  induction cs as [|c cs IH]; simpl; auto.
  destruct (N.eqb (DocumentChunk._id c) id); simpl; auto.
Qed.

Lemma setEmbedding_absent (id : ObjectId) (v : vector) (cs : list DocumentChunk.t) :
  (forall c, In c cs -> DocumentChunk._id c <> id) ->
  MongoStorage.setEmbedding id v cs = (None, cs).
Proof.
  induction cs as [|c cs IH]; simpl; auto. intros H.
  destruct (N.eqb_spec (DocumentChunk._id c) id) as [E|E].
  - exfalso. apply (H c); auto.
  - rewrite IH; auto.
Qed.

Lemma setEmbedding_present (id : ObjectId) (v : vector) (cs : list DocumentChunk.t)
      (c : DocumentChunk.t) :
  NoDup (map DocumentChunk._id cs) -> In c cs -> DocumentChunk._id c = id ->
  fst (MongoStorage.setEmbedding id v cs) = Some (withEmbedding c v) /\
  In (withEmbedding c v) (snd (MongoStorage.setEmbedding id v cs)).
Proof.
  induction cs as [|d cs IH]; simpl; [tauto|].
  intros Hnd Hin Hid. inversion Hnd as [|? ? Hd Hrest]; subst.
  destruct (N.eqb_spec (DocumentChunk._id d) (DocumentChunk._id c)) as [E|E].
  - destruct Hin as [->|Hin].
    + simpl. split; auto.
    + exfalso. apply Hd. rewrite E. now apply in_map.
  - destruct Hin as [->|Hin]; [contradiction|].
    destruct (IH Hrest Hin eq_refl) as [H1 H2]. simpl. auto.
Qed.

Lemma setEmbedding_first (id : ObjectId) (v : vector) (cs : list DocumentChunk.t)
      (c : DocumentChunk.t) :
  In c cs -> DocumentChunk._id c = id ->
  exists c', In c' cs /\ DocumentChunk._id c' = id /\
             In (withEmbedding c' v) (snd (MongoStorage.setEmbedding id v cs)).
Proof.
  induction cs as [|d cs IH]; simpl; [tauto|].
  intros Hin Hid.
  destruct (N.eqb_spec (DocumentChunk._id d) id) as [E|E].
  - exists d. simpl. auto.
  - destruct Hin as [->|Hin]; [contradiction|].
    destruct (IH Hin Hid) as (c' & H1 & H2 & H3). exists c'. simpl. auto.
Qed.

Lemma setEmbedding_others (id : ObjectId) (v : vector) (cs : list DocumentChunk.t)
      (c : DocumentChunk.t) :
  DocumentChunk._id c <> id ->
  (In c (snd (MongoStorage.setEmbedding id v cs)) <-> In c cs).
Proof.
  intros Hne. induction cs as [|d cs IH]; simpl; [tauto|].
  destruct (N.eqb_spec (DocumentChunk._id d) id) as [E|E]; simpl.
  - split; intros [H|H]; auto.
    + subst c. simpl in Hne. contradiction.
    + subst c. contradiction.
  - rewrite IH. tauto.
Qed.

Lemma setEmbedding_commute (id1 id2 : ObjectId) (v1 v2 : vector)
      (cs : list DocumentChunk.t) :
  id1 <> id2 ->
  snd (MongoStorage.setEmbedding id1 v1 (snd (MongoStorage.setEmbedding id2 v2 cs)))
  = snd (MongoStorage.setEmbedding id2 v2 (snd (MongoStorage.setEmbedding id1 v1 cs))).
Proof.
  intros Hne. induction cs as [|c cs IH]; simpl; auto.
  destruct (N.eqb_spec (DocumentChunk._id c) id1) as [E1|E1];
    destruct (N.eqb_spec (DocumentChunk._id c) id2) as [E2|E2]; simpl.
  - congruence.
  - destruct (N.eqb_spec (DocumentChunk._id c) id1); [|contradiction].
    destruct (N.eqb_spec (DocumentChunk._id c) id2); [contradiction|]. reflexivity.
  - destruct (N.eqb_spec (DocumentChunk._id c) id1); [contradiction|].
    destruct (N.eqb_spec (DocumentChunk._id c) id2); [|contradiction]. reflexivity.
  - destruct (N.eqb_spec (DocumentChunk._id c) id1); [contradiction|].
    destruct (N.eqb_spec (DocumentChunk._id c) id2); [contradiction|].
    simpl. now rewrite IH.
Qed.

(** X9.  [updateDocumentChunkEmbedding] on an identifier that no chunk
    has returns nothing and leaves the database as it is.  With
    identifiers that are unique, on the identifier of a stored chunk it
    returns that chunk with the embedding set and nothing else changed,
    stores it, and keeps every other chunk, the documents and the
    messages. *)
Theorem updateDocumentChunkEmbedding_by_id (id : ObjectId) (embedding : vector)
        (db : DB) :
  ((forall c, In c (chunks db) -> DocumentChunk._id c <> id) ->
   MongoStorage.updateDocumentChunkEmbedding id embedding db = (None, db))
  /\
  (NoDup (map DocumentChunk._id (chunks db)) ->
   forall c, In c (chunks db) -> DocumentChunk._id c = id ->
     let out := MongoStorage.updateDocumentChunkEmbedding id embedding db in
     fst out = Some (withEmbedding c embedding) /\
     In (withEmbedding c embedding) (chunks (snd out)) /\
     (forall d, DocumentChunk._id d <> id ->
                (In d (chunks (snd out)) <-> In d (chunks db))) /\
     List.length (chunks (snd out)) = List.length (chunks db) /\
     documents (snd out) = documents db /\
     messages (snd out) = messages db).
Proof.
  unfold MongoStorage.updateDocumentChunkEmbedding. split.
  - intros Habsent. rewrite setEmbedding_absent by assumption.
    destruct db; reflexivity.
  - intros Hnd c Hc Hid. cbn [fst snd chunks documents messages].
    destruct (setEmbedding_present id embedding (chunks db) c Hnd Hc Hid)
      as [H1 H2].
    repeat split; auto.
    + now apply setEmbedding_others.
    + now apply setEmbedding_others.
    + apply setEmbedding_length.
Qed.

Lemma updateDocumentChunkEmbedding_by_id_witness :
  MongoStorage.updateDocumentChunkEmbedding 99%N [1%Q] Inputs.library
  = (None, Inputs.library)
  /\
  fst (MongoStorage.updateDocumentChunkEmbedding 11%N [1%Q] Inputs.library)
  = Some (DocumentChunk.mk 11%N 1%N (lit "Press the red button.") (Some [1%Q]) 11).
Proof.
  split.
  - apply (proj1 (updateDocumentChunkEmbedding_by_id 99%N [1%Q] Inputs.library)).
    intros c [<-|[<-|[<-|[]]]]; discriminate.
  - refine (proj1 (proj2 (updateDocumentChunkEmbedding_by_id 11%N [1%Q]
                             Inputs.library) _
                      (DocumentChunk.mk 11%N 1%N (lit "Press the red button.")
                         None 11) _ _)).
    + repeat constructor; simpl; intuition discriminate.
    + now left.
    + reflexivity.
Defined.

(** X10.  A chunk created for a document is the last of the chunks
    listed for that document, and the lists of the other documents are
    the same as before. *)
Theorem created_chunk_is_listed (id documentId : ObjectId) (content : jsstring)
        (embedding : option vector) (now : Z) (db : DB) :
  let out := MongoStorage.createDocumentChunk id documentId content embedding now db in
  MongoStorage.getDocumentChunks documentId (snd out)
  = MongoStorage.getDocumentChunks documentId db ++ [fst out]
  /\
  forall other, other <> documentId ->
    MongoStorage.getDocumentChunks other (snd out)
    = MongoStorage.getDocumentChunks other db.
Proof.
  unfold MongoStorage.getDocumentChunks, MongoStorage.createDocumentChunk.
  cbn [fst snd chunks]. split.
  - rewrite filter_app. simpl. now rewrite N.eqb_refl.
  - intros other Hne. rewrite filter_app. simpl.
    destruct (N.eqb_spec documentId other); [congruence|]. apply app_nil_r.
Qed.

Lemma created_chunk_is_listed_witness :
  MongoStorage.getDocumentChunks 2%N
    (snd (MongoStorage.createDocumentChunk 14%N 1%N (lit "Done.") None 13
            Inputs.library))
  = MongoStorage.getDocumentChunks 2%N Inputs.library.
Proof.
  apply (proj2 (created_chunk_is_listed 14%N 1%N (lit "Done.") None 13
                  Inputs.library)).
  discriminate.
Defined.

Lemma removeById_NoDup (id : ObjectId) (docs : list Document.t) :
  NoDup (map Document._id docs) ->
  NoDup (map Document._id (MongoStorage.removeById id docs)).
Proof.
  induction docs as [|d docs IH]; simpl; auto.
  intros Hnd. inversion Hnd as [|? ? Hd Hrest]; subst.
  destruct (N.eqb (Document._id d) id); auto.
  simpl. constructor; auto.
  intros Hin. apply Hd. apply in_map_iff in Hin as (x & Hx & Hin).
  apply in_map_iff. exists x. split; auto. now apply removeById_incl in Hin.
Qed.

(** X11.  With document identifiers that are unique, deleting a stored
    document answers 204 and deleting it again answers 404 and changes
    nothing more; the identifiers stay unique. *)
Theorem second_delete_is_not_found (id : ObjectId) (db : DB) :
  NoDup (map Document._id (documents db)) ->
  (exists d, In d (documents db) /\ Document._id d = id) ->
  let first := Routes.deleteDocumentsId id db in
  let second := Routes.deleteDocumentsId id (snd first) in
  Routes.status (fst first) = 204 /\
  Routes.status (fst second) = 404 /\
  snd second = snd first /\
  MongoStorage.getDocument id (snd first) = None /\
  MongoStorage.getDocumentChunks id (snd first) = [] /\
  NoDup (map Document._id (documents (snd first))).
Proof.
  intros Hnd Hex. apply findById_present in Hex as [d Hd].
  unfold Routes.deleteDocumentsId, MongoStorage.deleteDocument.
  rewrite Hd. cbn [fst snd Routes.status documents].
  assert (Hgone : MongoStorage.findById id (MongoStorage.removeById id (documents db))
                  = None).
  { destruct (MongoStorage.findById id (MongoStorage.removeById id (documents db)))
      as [x|] eqn:E; auto.
    apply findById_Some in E as [Hin Hid].
    now apply (removeById_unique id (documents db) x Hnd) in Hin. }
  rewrite Hgone. cbn [fst snd Routes.status].
  repeat split; auto.
  - unfold MongoStorage.getDocumentChunks, MongoStorage.deleteMany. cbn [chunks].
    induction (chunks db) as [|c cs IH]; simpl; auto.
    destruct (N.eqb (DocumentChunk.documentId c) id) eqn:E; simpl; auto.
    now rewrite E.
  - now apply removeById_NoDup.
Qed.

Lemma second_delete_is_not_found_witness :
  Routes.status (fst (Routes.deleteDocumentsId 1%N Inputs.library)) = 204 /\
  Routes.status
    (fst (Routes.deleteDocumentsId 1%N
            (snd (Routes.deleteDocumentsId 1%N Inputs.library)))) = 404.
Proof.
  destruct (second_delete_is_not_found 1%N Inputs.library) as (H1 & H2 & _).
  - repeat constructor; simpl; intuition discriminate.
  - exists Inputs.manual. split; [now left | reflexivity].
  - split; [exact H1 | exact H2].
Defined.

(** X12.  [getDocuments] returns every stored document once, the newest
    first. *)
Theorem getDocuments_newest_first (db : DB) :
  Permutation (MongoStorage.getDocuments db) (documents db) /\
  StronglySorted (fun a b => Document.createdAt b <= Document.createdAt a)
                 (MongoStorage.getDocuments db).
Proof.
  unfold MongoStorage.getDocuments. split.
  - apply stableSort_Permutation.
  - apply stableSort_sorted.
    + intros x y z; lia.
    + intros x y H. apply Z.ltb_lt in H. lia.
    + intros x y H. apply Z.ltb_ge in H. lia.
Qed.

Lemma insertSorted_snoc {A : Type} (after : A -> A -> bool) (a x : A) (l : list A) :
  after a x = false ->
  insertSorted after a (l ++ [x]) = insertSorted after a l ++ [x].
Proof.
  intros H. induction l as [|y l IH]; simpl.
  - now rewrite H.
  - destruct (after a y); simpl; auto. now rewrite IH.
Qed.

Lemma stableSort_snoc {A : Type} (after : A -> A -> bool) (x : A) (l : list A) :
  (forall y, In y l -> after y x = false) ->
  stableSort after (l ++ [x]) = stableSort after l ++ [x].
Proof.
  induction l as [|a l IH]; intros H; simpl; auto.
  rewrite IH by (intros y Hy; apply H; now right).
  apply insertSorted_snoc. apply H. now left.
Qed.

(** X13.  A message created at a time later than the time of every
    stored message is the last message [getMessages] returns, and the
    messages before it are the earlier conversation in the order of
    creation time. *)
Theorem createMessage_appends_to_conversation (role : Role) (content : jsstring)
        (now : Z) (db : DB) :
  (forall m, In m (messages db) -> Message.createdAt m < now) ->
  let out := MongoStorage.createMessage role content now db in
  exists earlier,
    MongoStorage.getMessages (snd out) = earlier ++ [fst out] /\
    Permutation earlier (messages db) /\
    StronglySorted (fun a b => Message.createdAt a <= Message.createdAt b) earlier.
Proof.
  intros Hlate out. exists (MongoStorage.getMessages db). split; [| split].
  - unfold out, MongoStorage.getMessages, MongoStorage.createMessage.
    cbn [fst snd messages]. apply stableSort_snoc.
    intros y Hy. cbn [Message.createdAt]. apply Z.ltb_ge.
    specialize (Hlate y Hy). lia.
  - apply getMessages_Permutation.
  - apply getMessages_sorted.
Qed.

Lemma createMessage_appends_to_conversation_witness :
  exists earlier,
    MongoStorage.getMessages
      (snd (MongoStorage.createMessage user (lit "hello") 9 Inputs.conversation))
    = earlier ++ [Message.mk user (lit "hello") 9] /\
    Permutation earlier (messages Inputs.conversation) /\
    StronglySorted (fun a b => Message.createdAt a <= Message.createdAt b) earlier.
Proof.
  apply (createMessage_appends_to_conversation user (lit "hello") 9
           Inputs.conversation).
  intros m [<-|[<-|[]]]; cbn; lia.
Defined.

(* ================================================================== *)
(** * The embedding requests that are not waited for *)
(* ================================================================== *)

Lemma length_filter_le {A : Type} (f : A -> bool) (l : list A) :
  (List.length (filter f l) <= List.length l)%nat.
Proof.
  induction l as [|x l IH]; simpl; auto. destruct (f x); simpl; lia.
Qed.

Section Embeddings.
Variable calculateCosineSimilarity : vector -> vector -> Q.
Variable embeddings_create : jsstring -> option vector.

(** X14.  When the embedding request of a chunk fails, the database stays
    as it is.  When it succeeds, a chunk with that identifier carries the
    vector, the documents and messages are untouched, and a search with
    any limit of at least the number of chunks returns that chunk with
    its vector. *)
Theorem settled_embedding_makes_chunk_searchable
        (task : ObjectId * jsstring) (db : DB) :
  (embeddings_create (snd task) = None ->
   DocumentProcessor.settleEmbedding embeddings_create task db = db)
  /\
  (forall embedding c,
     embeddings_create (snd task) = Some embedding ->
     In c (chunks db) -> DocumentChunk._id c = fst task ->
     let db' := DocumentProcessor.settleEmbedding embeddings_create task db in
     documents db' = documents db /\
     messages db' = messages db /\
     List.length (chunks db') = List.length (chunks db) /\
     forall query (limit : nat),
       (List.length (chunks db) <= limit)%nat ->
       exists found,
         In found (MongoStorage.searchSimilarChunks calculateCosineSimilarity db'
                     query (Z.of_nat limit)) /\
         DocumentChunk._id (MongoStorage.chunk found) = fst task /\
         DocumentChunk.embedding (MongoStorage.chunk found) = Some embedding).
Proof.
  unfold DocumentProcessor.settleEmbedding, OpenAI.generateEmbedding. split.
  - intros ->. reflexivity.
  - intros embedding c -> Hc Hid. cbn [documents messages chunks].
    repeat split; auto using setEmbedding_length.
    intros query limit Hlimit.
    set (db' := {| documents := documents db;
                   chunks := snd (MongoStorage.setEmbedding (fst task) embedding
                                    (chunks db));
                   messages := messages db |}).
    destruct (setEmbedding_first (fst task) embedding (chunks db) c Hc Hid)
      as (c' & _ & Hid' & Hin).
    destruct (search_ranking calculateCosineSimilarity db' query)
      as (ranked & Hperm & _ & Hcut & _).
    exists (MongoStorage.populate db' (withEmbedding c' embedding)).
    rewrite Hcut. split; [| split; [exact Hid' | reflexivity]].
    rewrite firstn_all2.
    + apply (Permutation_in _ (Permutation_sym Hperm)).
      unfold MongoStorage.findEmbedded. apply in_map. apply filter_In.
      split; [exact Hin | reflexivity].
    + rewrite (Permutation_length Hperm). unfold MongoStorage.findEmbedded.
      rewrite length_map. etransitivity; [apply length_filter_le|].
      unfold db'. cbn [chunks]. rewrite setEmbedding_length. exact Hlimit.
Qed.

(** X15.  The ends of two embedding requests for chunks with different
    identifiers can come in either order: the database is the same. *)
Theorem embedding_completions_commute (task1 task2 : ObjectId * jsstring) (db : DB) :
  fst task1 <> fst task2 ->
  DocumentProcessor.settleEmbedding embeddings_create task1
    (DocumentProcessor.settleEmbedding embeddings_create task2 db)
  = DocumentProcessor.settleEmbedding embeddings_create task2
      (DocumentProcessor.settleEmbedding embeddings_create task1 db).
Proof.
  intros Hne. unfold DocumentProcessor.settleEmbedding, OpenAI.generateEmbedding.
  destruct (embeddings_create (snd task1)) as [v1|];
    destruct (embeddings_create (snd task2)) as [v2|]; auto.
  cbn [documents chunks messages]. f_equal.
  now apply setEmbedding_commute.
Qed.
End Embeddings.

Lemma settled_embedding_makes_chunk_searchable_witness :
  exists found,
    In found
       (MongoStorage.searchSimilarChunks Inputs.dot
          (DocumentProcessor.settleEmbedding Inputs.unitEmbedding
             (11%N, lit "Press the red button.") Inputs.library)
          [1%Q; 0%Q] (Z.of_nat 5)) /\
    DocumentChunk._id (MongoStorage.chunk found) = 11%N /\
    DocumentChunk.embedding (MongoStorage.chunk found) = Some [1%Q; 0%Q].
Proof.
  destruct (proj2 (settled_embedding_makes_chunk_searchable Inputs.dot
                     Inputs.unitEmbedding (11%N, lit "Press the red button.")
                     Inputs.library)
              [1%Q; 0%Q]
              (DocumentChunk.mk 11%N 1%N (lit "Press the red button.") None 11))
    as (_ & _ & _ & H).
  - reflexivity.
  - now left.
  - reflexivity.
  - apply (H [1%Q; 0%Q] 5%nat). cbn. lia.
Defined.

Lemma embedding_completions_commute_witness :
  DocumentProcessor.settleEmbedding Inputs.unitEmbedding (11%N, lit "a")
    (DocumentProcessor.settleEmbedding Inputs.unitEmbedding (12%N, lit "b")
       Inputs.library)
  = DocumentProcessor.settleEmbedding Inputs.unitEmbedding (12%N, lit "b")
      (DocumentProcessor.settleEmbedding Inputs.unitEmbedding (11%N, lit "a")
         Inputs.library).
Proof.
  apply (embedding_completions_commute Inputs.unitEmbedding
           (11%N, lit "a") (12%N, lit "b") Inputs.library).
  discriminate.
Defined.

(* ================================================================== *)
(** * More about the upload *)
(* ================================================================== *)

(** What the loop of [processDocumentChunks] adds for a list of chunk
    texts. *)
Lemma storeChunks_added (documentId : ObjectId) (now : Z) (texts : list jsstring) :
  forall w,
    let w' := fold_left (DocumentProcessor.storeChunk documentId now) texts w in
    exists added,
      chunks (DocumentProcessor.db w') = chunks (DocumentProcessor.db w) ++ added /\
      map DocumentChunk.content added = filter (fun t => negb (isBlank t)) texts /\
      Forall (fun c => DocumentChunk.documentId c = documentId /\
                       DocumentChunk.embedding c = None) added /\
      documents (DocumentProcessor.db w') = documents (DocumentProcessor.db w) /\
      messages (DocumentProcessor.db w') = messages (DocumentProcessor.db w) /\
      DocumentProcessor.fs w' = DocumentProcessor.fs w /\
      DocumentProcessor.pendingEmbeddings w'
      = DocumentProcessor.pendingEmbeddings w
        ++ map (fun c => (DocumentChunk._id c, DocumentChunk.content c)) added.
Proof.
  induction texts as [|t texts IH]; intros w; simpl.
  - exists []. simpl. rewrite !app_nil_r. repeat split; auto.
  - destruct (IH (DocumentProcessor.storeChunk documentId now w t))
      as (added & H1 & H2 & H3 & H4 & H5 & H6 & H7).
    unfold DocumentProcessor.storeChunk, isBlank in *.
    destruct (trim t) as [|ch rest] eqn:Et.
    + exists added. simpl. repeat split; auto.
    + cbn [DocumentProcessor.db DocumentProcessor.fs
           DocumentProcessor.pendingEmbeddings chunks documents messages] in *.
      exists (DocumentChunk.mk (DocumentProcessor.nextId w) documentId t None now
                :: added).
      simpl. rewrite H1, H7, <- !app_assoc. simpl.
      repeat split; auto. now rewrite H2.
Qed.

Lemma Forall2_same {A : Type} (R : A -> A -> Prop) (l : list A) :
  (forall a, R a a) -> Forall2 R l l.
Proof. intros H. induction l; constructor; auto. Qed.

Lemma Forall2_compose {A : Type} (R1 R2 R3 : A -> A -> Prop) (l1 l2 l3 : list A) :
  (forall a b c, R1 a b -> R2 b c -> R3 a c) ->
  Forall2 R1 l1 l2 -> Forall2 R2 l2 l3 -> Forall2 R3 l1 l3.
Proof.
  intros H H1. revert l3. induction H1 as [|a b l1 l2 Hab H1 IH]; intros l3 H2;
    inversion H2; subst; constructor; eauto.
Qed.

Lemma Forall2_In_r {A : Type} (R : A -> A -> Prop) (l1 l2 : list A) (b : A) :
  Forall2 R l1 l2 -> In b l2 -> exists a, In a l1 /\ R a b.
Proof.
  induction 1 as [|x y l1 l2 Hxy H IH]; intros Hin; [destruct Hin|].
  destruct Hin as [->|Hin].
  - exists x. split; auto. now left.
  - destruct (IH Hin) as (a & Ha & HR). exists a. split; auto. now right.
Qed.

Lemma setEmbedding_shape (id : ObjectId) (v : vector) (cs : list DocumentChunk.t) :
  Forall2 (fun c0 c => c = c0 \/
                       (DocumentChunk._id c0 = id /\ c = withEmbedding c0 v))
          cs (snd (MongoStorage.setEmbedding id v cs)).
Proof.
  induction cs as [|c cs IH]; simpl; [constructor|].
  destruct (N.eqb_spec (DocumentChunk._id c) id) as [E|E]; simpl.
  - constructor; [right; split; auto|]. apply Forall2_same. auto.
  - constructor; auto.
Qed.

Lemma settledFrom_fields (embeddings_create : jsstring -> option vector)
      (tasks : list (ObjectId * jsstring)) (c0 c : DocumentChunk.t) :
  settledFrom embeddings_create tasks c0 c ->
  DocumentChunk._id c = DocumentChunk._id c0 /\
  DocumentChunk.documentId c = DocumentChunk.documentId c0 /\
  DocumentChunk.content c = DocumentChunk.content c0.
Proof.
  intros [->|(task & v & _ & _ & _ & ->)]; auto.
Qed.

Lemma settledFrom_incl (embeddings_create : jsstring -> option vector)
      (tasks tasks' : list (ObjectId * jsstring)) (c0 c : DocumentChunk.t) :
  incl tasks tasks' ->
  settledFrom embeddings_create tasks c0 c ->
  settledFrom embeddings_create tasks' c0 c.
Proof.
  intros Hincl [->|(task & v & Hin & H)]; [now left|].
  right. exists task, v. split; auto.
Qed.

Lemma settledFrom_trans (embeddings_create : jsstring -> option vector)
      (tasks : list (ObjectId * jsstring)) (a b c : DocumentChunk.t) :
  settledFrom embeddings_create tasks a b ->
  settledFrom embeddings_create tasks b c ->
  settledFrom embeddings_create tasks a c.
Proof.
  intros [->|(t & v & Hin & Hid & Hv & ->)] H; [exact H|].
  destruct H as [->|(t' & v' & Hin' & Hid' & Hv' & ->)].
  - right. exists t, v. repeat split; auto.
  - right. exists t', v'. repeat split; auto.
Qed.

(** The end of one request changes nothing but the embedding of a chunk
    it was started for. *)
Lemma settleEmbedding_shape (embeddings_create : jsstring -> option vector)
      (task : ObjectId * jsstring) (database : DB) :
  documents (DocumentProcessor.settleEmbedding embeddings_create task database)
  = documents database /\
  messages (DocumentProcessor.settleEmbedding embeddings_create task database)
  = messages database /\
  Forall2 (settledFrom embeddings_create [task]) (chunks database)
          (chunks (DocumentProcessor.settleEmbedding embeddings_create task database)).
Proof.
  unfold DocumentProcessor.settleEmbedding, OpenAI.generateEmbedding.
  destruct (embeddings_create (snd task)) as [v|] eqn:Ev;
    cbn [documents messages chunks].
  - repeat split; auto.
    eapply Forall2_impl; [| apply (setEmbedding_shape (fst task) v)].
    intros a b [->|[Hid ->]]; [now left|].
    right. exists task, v. repeat split; auto. now left.
  - repeat split; auto. apply Forall2_same. now left.
Qed.

Lemma settledWorld_refl (embeddings_create : jsstring -> option vector)
      (w : DocumentProcessor.World) :
  settledWorld embeddings_create w w.
Proof.
  unfold settledWorld. repeat split; auto. apply Forall2_same. now left.
Qed.

Lemma settleStarted_settled (embeddings_create : jsstring -> option vector)
      (positions : list nat) :
  forall w w',
    settledWorld embeddings_create w w' ->
    settledWorld embeddings_create w
      (DocumentProcessor.settleStarted embeddings_create positions w').
Proof.
  unfold DocumentProcessor.settleStarted.
  induction positions as [|i positions IH]; intros w w' H; [exact H|].
  simpl. apply IH.
  destruct (nth_error (DocumentProcessor.pendingEmbeddings w') i) as [task|] eqn:E;
    [|exact H].
  destruct H as (Hd & Hm & Hf & Hn & Hp & Hc).
  destruct (settleEmbedding_shape embeddings_create task (DocumentProcessor.db w'))
    as (Hd' & Hm' & Hc').
  unfold settledWorld.
  cbn [DocumentProcessor.db DocumentProcessor.fs DocumentProcessor.nextId
       DocumentProcessor.pendingEmbeddings].
  split; [congruence|]. split; [congruence|]. repeat split; auto.
  eapply Forall2_compose; [| exact Hc | eapply Forall2_impl; [| exact Hc']].
  - intros a b c. apply settledFrom_trans.
  - intros a b. apply settledFrom_incl. intros t [<-|[]].
    rewrite <- Hp. eapply nth_error_In; eauto.
Qed.

Lemma storeChunk_settled (embeddings_create : jsstring -> option vector)
      (documentId : ObjectId) (now : Z) (chunkText : jsstring)
      (w w' : DocumentProcessor.World) :
  settledWorld embeddings_create w w' ->
  settledWorld embeddings_create
    (DocumentProcessor.storeChunk documentId now w chunkText)
    (DocumentProcessor.storeChunk documentId now w' chunkText).
Proof.
  intros H. unfold DocumentProcessor.storeChunk.
  destruct (trim chunkText); [exact H|].
  destruct H as (Hd & Hm & Hf & Hn & Hp & Hc).
  unfold settledWorld.
  cbn [DocumentProcessor.db DocumentProcessor.fs DocumentProcessor.nextId
       DocumentProcessor.pendingEmbeddings documents chunks messages].
  rewrite Hn, Hp. repeat split; auto.
  apply Forall2_app.
  - eapply Forall2_impl; [| exact Hc].
    intros x y. apply settledFrom_incl. apply incl_appl, incl_refl.
  - constructor; [now left | constructor].
Qed.

(** The loop with requests ending meanwhile gives the state of the loop
    without them, up to the embeddings of the requests started. *)
Lemma storeChunksDuring_settled (embeddings_create : jsstring -> option vector)
      (documentId : ObjectId) (now : Z) (chunkTexts : list jsstring) :
  forall ending w w',
    settledWorld embeddings_create w w' ->
    settledWorld embeddings_create
      (fold_left (DocumentProcessor.storeChunk documentId now) chunkTexts w)
      (DocumentProcessor.storeChunksDuring embeddings_create documentId now
         chunkTexts ending w').
Proof.
  induction chunkTexts as [|t rest IH]; intros ending w w' H; simpl; [exact H|].
  destruct (trim t) as [|ch more] eqn:E.
  - replace (DocumentProcessor.storeChunk documentId now w t) with w
      by (unfold DocumentProcessor.storeChunk; now rewrite E).
    apply IH, H.
  - apply IH, settleStarted_settled, storeChunk_settled, H.
Qed.

Lemma storeChunksDuring_nothing (embeddings_create : jsstring -> option vector)
      (documentId : ObjectId) (now : Z) (chunkTexts : list jsstring) :
  forall w,
    DocumentProcessor.storeChunksDuring embeddings_create documentId now
      chunkTexts [] w
    = fold_left (DocumentProcessor.storeChunk documentId now) chunkTexts w.
Proof.
  induction chunkTexts as [|t rest IH]; intros w; simpl; auto.
  destruct (trim t) as [|ch more] eqn:E.
  - replace (DocumentProcessor.storeChunk documentId now w t) with w
      by (unfold DocumentProcessor.storeChunk; now rewrite E).
    apply IH.
  - apply IH.
Qed.

Section UploadMore.
Variable calculateCosineSimilarity : vector -> vector -> Q.
Variable embeddings_create : jsstring -> option vector.
Variable extname : jsstring -> jsstring.
Variable pdfParse : list ascii -> result jsstring.
Variable extractRawText : list ascii -> result jsstring.
Variable utf8 : list ascii -> jsstring.

Lemma extractText_Ok_type (fileExtension : jsstring)
      (file : DocumentProcessor.UploadedFile) (files : DocumentProcessor.FileSystem)
      (text : jsstring) :
  DocumentProcessor.extractText pdfParse extractRawText utf8 fileExtension file files
  = Ok text ->
  In (toUpperCase (substring fileExtension 1 (strlen fileExtension))) documentTypes.
Proof.
  unfold DocumentProcessor.extractText. intros H.
  destruct (jsstring_eqb fileExtension (lit ".pdf")) eqn:E1.
  { apply jsstring_eqb_eq in E1. subst. vm_compute. auto. }
  destruct (jsstring_eqb fileExtension (lit ".docx")) eqn:E2.
  { apply jsstring_eqb_eq in E2. subst. vm_compute. auto. }
  destruct (jsstring_eqb fileExtension (lit ".txt")) eqn:E3.
  { apply jsstring_eqb_eq in E3. subst. vm_compute. auto. }
  destruct (jsstring_eqb fileExtension (lit ".md")) eqn:E4.
  { apply jsstring_eqb_eq in E4. subst. vm_compute. auto 6. }
  discriminate.
Qed.

(** The world after an upload whose extraction succeeds. *)
Lemma processFile_Ok (file : DocumentProcessor.UploadedFile)
      (originalName : jsstring) (now : Z) (w : DocumentProcessor.World)
      (text : jsstring) :
  DocumentProcessor.extractText pdfParse extractRawText utf8
    (toLowerCase (extname originalName)) file (DocumentProcessor.fs w) = Ok text ->
  exists chunkTexts added,
    splitTextIntoChunks (S (List.length text)) text 1000 200 = Returned chunkTexts /\
    map DocumentChunk.content added = filter (fun t => negb (isBlank t)) chunkTexts /\
    Forall (fun c => DocumentChunk.documentId c = DocumentProcessor.nextId w /\
                     DocumentChunk.embedding c = None) added /\
    let document :=
      Document.mk (DocumentProcessor.nextId w) originalName
        (toUpperCase (substring (toLowerCase (extname originalName)) 1
                        (strlen (toLowerCase (extname originalName)))))
        (DocumentProcessor.size file) now in
    let out :=
      DocumentProcessor.processFile extname pdfParse extractRawText utf8
        file originalName now w in
    fst out = Ok document /\
    documents (DocumentProcessor.db (snd out))
    = documents (DocumentProcessor.db w) ++ [document] /\
    chunks (DocumentProcessor.db (snd out))
    = chunks (DocumentProcessor.db w) ++ added /\
    messages (DocumentProcessor.db (snd out)) = messages (DocumentProcessor.db w) /\
    DocumentProcessor.fs (snd out)
    = DocumentProcessor.unlinkSync (DocumentProcessor.path file)
        (DocumentProcessor.fs w) /\
    DocumentProcessor.pendingEmbeddings (snd out)
    = DocumentProcessor.pendingEmbeddings w
      ++ map (fun c => (DocumentChunk._id c, DocumentChunk.content c)) added.
Proof.
  intros Hok.
  destruct (production_chunking_returns text) as [chunkTexts Hrun].
  unfold DocumentProcessor.processFile. rewrite Hok.
  unfold DocumentProcessor.processDocumentChunks. rewrite Hrun.
  cbn [emitted Document._id].
  match goal with
  | |- context [fold_left ?f chunkTexts ?w0] =>
      destruct (storeChunks_added (DocumentProcessor.nextId w) now chunkTexts w0)
        as (added & H1 & H2 & H3 & H4 & H5 & H6 & H7)
  end.
  cbn [DocumentProcessor.db DocumentProcessor.fs DocumentProcessor.pendingEmbeddings
       chunks documents messages] in *.
  exists chunkTexts, added. cbn [fst snd DocumentProcessor.db DocumentProcessor.fs
                                  DocumentProcessor.pendingEmbeddings].
  repeat split; auto. now rewrite H6.
Qed.

(** An upload during which requests end gives the document and the state
    of the upload during which none ends, up to the embeddings of the
    requests started. *)
Lemma processFileDuring_settled (ending : list (list nat)) (afterwards : list nat)
      (file : DocumentProcessor.UploadedFile) (originalName : jsstring)
      (now : Z) (w : DocumentProcessor.World) (text : jsstring) :
  DocumentProcessor.extractText pdfParse extractRawText utf8
    (toLowerCase (extname originalName)) file (DocumentProcessor.fs w) = Ok text ->
  fst (DocumentProcessor.processFileDuring embeddings_create extname pdfParse
         extractRawText utf8 ending file originalName now w)
  = fst (DocumentProcessor.processFile extname pdfParse extractRawText utf8
           file originalName now w) /\
  settledWorld embeddings_create
    (snd (DocumentProcessor.processFile extname pdfParse extractRawText utf8
            file originalName now w))
    (DocumentProcessor.settleStarted embeddings_create afterwards
       (snd (DocumentProcessor.processFileDuring embeddings_create extname pdfParse
               extractRawText utf8 ending file originalName now w))).
Proof.
  intros Hok.
  unfold DocumentProcessor.processFileDuring, DocumentProcessor.processFile.
  cbv zeta. rewrite Hok. cbn [fst snd]. split; [reflexivity|].
  apply settleStarted_settled.
  unfold DocumentProcessor.processDocumentChunksDuring,
         DocumentProcessor.processDocumentChunks. cbv zeta.
  match goal with
  | |- settledWorld _
         {| DocumentProcessor.db := DocumentProcessor.db (fold_left ?f ?l ?w0) |}
         {| DocumentProcessor.db :=
              DocumentProcessor.db
                (DocumentProcessor.storeChunksDuring ?e ?d ?n ?l' ?en ?w0') |} =>
      destruct (storeChunksDuring_settled e d n l en w0 w0'
                  (settledWorld_refl e w0))
        as (Hd & Hm & Hf & Hn & Hp & Hc)
  end.
  unfold settledWorld.
  cbn [DocumentProcessor.db DocumentProcessor.fs DocumentProcessor.nextId
       DocumentProcessor.pendingEmbeddings].
  rewrite Hf. repeat split; auto.
Qed.

(** When no request ends during the upload, it is the upload of
    [processFile]. *)
Lemma processFileDuring_nothing
      (file : DocumentProcessor.UploadedFile) (originalName : jsstring)
      (now : Z) (w : DocumentProcessor.World) :
  DocumentProcessor.processFileDuring embeddings_create extname pdfParse
    extractRawText utf8 [] file originalName now w
  = DocumentProcessor.processFile extname pdfParse extractRawText utf8
      file originalName now w.
Proof.
  unfold DocumentProcessor.processFileDuring, DocumentProcessor.processFile,
         DocumentProcessor.processDocumentChunksDuring,
         DocumentProcessor.processDocumentChunks.
  cbv zeta.
  destruct (DocumentProcessor.extractText pdfParse extractRawText utf8
              (toLowerCase (extname originalName)) file (DocumentProcessor.fs w));
    [|reflexivity].
  now rewrite storeChunksDuring_nothing.
Qed.

(** X16.  When the extraction succeeds, the chunker returns on the text
    with the sizes 1000 and 200 and its chunks put together give the
    text.  Whichever of the requests started have ended, during the loop
    that stores the chunks or after the upload, the chunks stored after
    the earlier ones are, in order, those of the chunker's chunks that
    are not blank, each owned by the new document; and one embedding
    request was started for each of them. *)
Theorem stored_chunks_follow_the_chunker
        (ending : list (list nat)) (afterwards : list nat)
        (file : DocumentProcessor.UploadedFile) (originalName : jsstring)
        (now : Z) (w : DocumentProcessor.World) (text : jsstring) :
  DocumentProcessor.extractText pdfParse extractRawText utf8
    (toLowerCase (extname originalName)) file (DocumentProcessor.fs w) = Ok text ->
  let out :=
    DocumentProcessor.processFileDuring embeddings_create extname pdfParse
      extractRawText utf8 ending file originalName now w in
  let w' := DocumentProcessor.settleStarted embeddings_create afterwards (snd out) in
  exists chunkTexts earlier added,
    splitTextIntoChunks (S (List.length text)) text 1000 200 = Returned chunkTexts /\
    reassemble 200 chunkTexts = text /\
    chunks (DocumentProcessor.db w') = earlier ++ added /\
    List.length earlier = List.length (chunks (DocumentProcessor.db w)) /\
    map DocumentChunk.content added = filter (fun t => negb (isBlank t)) chunkTexts /\
    Forall (fun c => DocumentChunk.documentId c = DocumentProcessor.nextId w) added /\
    DocumentProcessor.pendingEmbeddings w'
    = DocumentProcessor.pendingEmbeddings w
      ++ map (fun c => (DocumentChunk._id c, DocumentChunk.content c)) added.
Proof.
  intros Hok out w'.
  destruct (processFile_Ok file originalName now w text Hok)
    as (chunkTexts & added & Hrun & Hcontent & Hadded & _ & _ & Hchunks & _ & _ & Hpending).
  destruct (processFileDuring_settled ending afterwards file originalName now w text Hok)
    as (_ & _ & _ & _ & _ & Hp & Hshape).
  fold out in Hp, Hshape. fold w' in Hp, Hshape.
  rewrite Hchunks in Hshape.
  apply Forall2_app_inv_l in Hshape as (earlier & added' & Hearlier & Hadded' & Hsplit).
  assert (Hsame : map DocumentChunk.content added' = map DocumentChunk.content added /\
                  map DocumentChunk._id added' = map DocumentChunk._id added /\
                  Forall (fun c => DocumentChunk.documentId c
                                   = DocumentProcessor.nextId w) added').
  { clear - Hadded Hadded'.
    induction Hadded' as [|c0 c l0 l Hc H IH]; simpl; [auto|].
    inversion Hadded as [|? ? [Hdoc _] Hrest]; subst.
    destruct (IH Hrest) as (I1 & I2 & I3).
    destruct (settledFrom_fields _ _ _ _ Hc) as (F1 & F2 & F3).
    rewrite I1, I2, F1, F3. repeat split; auto. constructor; auto. congruence. }
  destruct Hsame as (Hc' & Hi' & Hdoc').
  exists chunkTexts, earlier, added'. repeat split; auto.
  - destruct (splitLoop_covers text 1000 200 (S (List.length text)) ltac:(lia)
                0 chunkTexts ltac:(lia) Hrun) as (_ & _ & _ & _ & _ & _ & Hre).
    exact Hre.
  - symmetry. exact (Forall2_length Hearlier).
  - now rewrite Hc'.
  - rewrite Hp, Hpending. f_equal.
    clear - Hc' Hi'. revert added Hc' Hi'.
    induction added' as [|c l IH]; intros [|d l'] H1 H2; simpl in *;
      try discriminate; auto.
    injection H1 as Hc Hl. injection H2 as Hi Hl'.
    rewrite Hc, Hi. f_equal. apply IH; assumption.
Qed.

(** X17.  When the extraction succeeds, the upload answers 201 with the
    new document, which is stored after the earlier ones under the
    original name with a type among PDF, DOCX, TXT and MD; the uploaded
    file is removed from the upload directory and the messages are
    untouched. *)
Theorem successful_upload_stores_document
        (file : DocumentProcessor.UploadedFile) (now : Z)
        (w : DocumentProcessor.World) (text : jsstring) :
  DocumentProcessor.extractText pdfParse extractRawText utf8
    (toLowerCase (extname (DocumentProcessor.originalname file))) file
    (DocumentProcessor.fs w) = Ok text ->
  let out := Routes.postDocuments extname pdfParse extractRawText utf8
               (Some file) now w in
  exists document,
    fst out = Routes.mkResponse 201 (Routes.DocumentBody document) /\
    Document.name document = DocumentProcessor.originalname file /\
    Document.size document = DocumentProcessor.size file /\
    In (Document.type document) documentTypes /\
    documents (DocumentProcessor.db (snd out))
    = documents (DocumentProcessor.db w) ++ [document] /\
    messages (DocumentProcessor.db (snd out)) = messages (DocumentProcessor.db w) /\
    DocumentProcessor.existsSync (DocumentProcessor.path file)
      (DocumentProcessor.fs (snd out)) = false.
Proof.
  intros Hok out.
  destruct (processFile_Ok file (DocumentProcessor.originalname file) now w text Hok)
    as (chunkTexts & added & _ & _ & _ & Hfst & Hdocs & _ & Hmsgs & Hfs & _).
  unfold out, Routes.postDocuments.
  destruct (DocumentProcessor.processFile extname pdfParse extractRawText utf8
              file (DocumentProcessor.originalname file) now w) as [r w'] eqn:E.
  cbn [fst snd] in *. subst r. eexists. cbn [fst snd].
  split; [reflexivity|]. cbn [Document.name Document.size Document.type].
  repeat split; auto.
  - exact (extractText_Ok_type _ _ _ _ Hok).
  - rewrite Hfs. apply existsSync_unlinkSync.
Qed.

(** X18.  After an upload that succeeds, and whichever of the requests
    started have ended during it or after it, a search returns for every
    query and every limit only chunks that are as they were stored before
    the upload, or chunks for which a request was started and answered
    with a vector and which carry that vector: a chunk whose request is
    not ended, or has failed, is not returned. *)
Theorem search_after_upload_finds_settled_chunks_only
        (ending : list (list nat)) (afterwards : list nat)
        (file : DocumentProcessor.UploadedFile) (originalName : jsstring)
        (now : Z) (w : DocumentProcessor.World) (text : jsstring) :
  DocumentProcessor.extractText pdfParse extractRawText utf8
    (toLowerCase (extname originalName)) file (DocumentProcessor.fs w) = Ok text ->
  let out :=
    DocumentProcessor.processFileDuring embeddings_create extname pdfParse
      extractRawText utf8 ending file originalName now w in
  let w' := DocumentProcessor.settleStarted embeddings_create afterwards (snd out) in
  forall query limit found,
    In found (MongoStorage.searchSimilarChunks calculateCosineSimilarity
                (DocumentProcessor.db w') query limit) ->
    In (MongoStorage.chunk found) (chunks (DocumentProcessor.db w)) \/
    exists task embedding,
      In task (DocumentProcessor.pendingEmbeddings w') /\
      fst task = DocumentChunk._id (MongoStorage.chunk found) /\
      embeddings_create (snd task) = Some embedding /\
      DocumentChunk.embedding (MongoStorage.chunk found) = Some embedding.
Proof.
  intros Hok out w' query limit found Hfound.
  destruct (processFile_Ok file originalName now w text Hok)
    as (chunkTexts & added & _ & _ & Hadded & _ & _ & Hchunks & _).
  destruct (processFileDuring_settled ending afterwards file originalName now w text Hok)
    as (_ & _ & _ & _ & _ & Hp & Hshape).
  fold out in Hp, Hshape. fold w' in Hp, Hshape.
  rewrite Hchunks in Hshape. rewrite <- Hp in Hshape.
  destruct (search_ranking calculateCosineSimilarity (DocumentProcessor.db w') query)
    as (ranked & Hperm & _ & _ & Hin).
  apply Hin in Hfound. apply (Permutation_in _ Hperm) in Hfound.
  apply findEmbedded_spec in Hfound as [Hstored Hemb].
  destruct (Forall2_In_r _ _ _ _ Hshape Hstored) as (c0 & Hc0 & Hfrom).
  destruct Hfrom as [E|(task & v & Htask & Hid & Hv & E)].
  - rewrite E in *. apply in_app_or in Hc0 as [H|H]; [now left|].
    rewrite Forall_forall in Hadded. apply Hadded in H as [_ H]. contradiction.
  - right. exists task, v. rewrite E. repeat split; auto.
Qed.

End UploadMore.

Lemma stored_chunks_follow_the_chunker_witness :
  exists chunkTexts earlier added,
    splitTextIntoChunks (S (List.length Inputs.handbookText))
      Inputs.handbookText 1000 200 = Returned chunkTexts /\
    reassemble 200 chunkTexts = Inputs.handbookText /\
    chunks (DocumentProcessor.db
              (DocumentProcessor.settleStarted Inputs.unitEmbedding [3%nat]
                 (snd (DocumentProcessor.processFileDuring
                         Inputs.unitEmbedding Inputs.extnameOfFileName
                   Inputs.failingParser Inputs.failingParser Inputs.latin1
                   [[0%nat; 1%nat]; []; [2%nat]] Inputs.handbook
                   (lit "HANDBOOK.MD") 50 Inputs.afterHandbook))))
    = earlier ++ added /\
    List.length earlier = List.length (chunks Inputs.library) /\
    map DocumentChunk.content added = filter (fun t => negb (isBlank t)) chunkTexts /\
    Forall (fun c => DocumentChunk.documentId c = 40%N) added /\
    DocumentProcessor.pendingEmbeddings
      (DocumentProcessor.settleStarted Inputs.unitEmbedding [3%nat]
         (snd (DocumentProcessor.processFileDuring
                 Inputs.unitEmbedding Inputs.extnameOfFileName
                   Inputs.failingParser Inputs.failingParser Inputs.latin1
                   [[0%nat; 1%nat]; []; [2%nat]] Inputs.handbook
                   (lit "HANDBOOK.MD") 50 Inputs.afterHandbook)))
    = [(11%N, lit "Press the red button.")]
      ++ map (fun c => (DocumentChunk._id c, DocumentChunk.content c)) added.
Proof.
  apply (stored_chunks_follow_the_chunker Inputs.unitEmbedding
           Inputs.extnameOfFileName
           Inputs.failingParser Inputs.failingParser Inputs.latin1
           [[0%nat; 1%nat]; []; [2%nat]] [3%nat]
           Inputs.handbook (lit "HANDBOOK.MD") 50 Inputs.afterHandbook
           Inputs.handbookText).
  vm_compute. reflexivity.
Defined.

Lemma successful_upload_stores_document_witness :
  exists document,
    fst (Routes.postDocuments Inputs.extnameOfFileName Inputs.failingParser
           Inputs.failingParser Inputs.latin1 (Some Inputs.readme) 50
           Inputs.afterReadme)
    = Routes.mkResponse 201 (Routes.DocumentBody document) /\
    Document.type document = lit "MD".
Proof.
  destruct (successful_upload_stores_document Inputs.extnameOfFileName
              Inputs.failingParser Inputs.failingParser Inputs.latin1
              Inputs.readme 50 Inputs.afterReadme (lit "Install it. Then run it."))
    as (document & H1 & _).
  - vm_compute. reflexivity.
  - exists document. split; [exact H1|].
    vm_compute in H1. inversion H1. reflexivity.
Defined.

Lemma search_after_upload_finds_settled_chunks_only_witness :
  Forall
    (fun found =>
       In (MongoStorage.chunk found) (chunks Inputs.library) \/
       exists task embedding,
         In task
            (DocumentProcessor.pendingEmbeddings
               (DocumentProcessor.settleStarted Inputs.unitEmbedding [3%nat]
                  (snd (DocumentProcessor.processFileDuring
                          Inputs.unitEmbedding Inputs.extnameOfFileName
                   Inputs.failingParser Inputs.failingParser Inputs.latin1
                   [[0%nat; 1%nat]; []; [2%nat]] Inputs.handbook
                   (lit "HANDBOOK.MD") 50 Inputs.afterHandbook)))) /\
         fst task = DocumentChunk._id (MongoStorage.chunk found) /\
         Inputs.unitEmbedding (snd task) = Some embedding /\
         DocumentChunk.embedding (MongoStorage.chunk found) = Some embedding)
    (MongoStorage.searchSimilarChunks Inputs.dot
       (DocumentProcessor.db
          (DocumentProcessor.settleStarted Inputs.unitEmbedding [3%nat]
             (snd (DocumentProcessor.processFileDuring
                     Inputs.unitEmbedding Inputs.extnameOfFileName
                   Inputs.failingParser Inputs.failingParser Inputs.latin1
                   [[0%nat; 1%nat]; []; [2%nat]] Inputs.handbook
                   (lit "HANDBOOK.MD") 50 Inputs.afterHandbook))))
       [1%Q; 0%Q] 5).
Proof.
  apply Forall_forall. intros found.
  apply (search_after_upload_finds_settled_chunks_only Inputs.dot
           Inputs.unitEmbedding Inputs.extnameOfFileName
           Inputs.failingParser Inputs.failingParser Inputs.latin1
           [[0%nat; 1%nat]; []; [2%nat]] [3%nat]
           Inputs.handbook (lit "HANDBOOK.MD") 50 Inputs.afterHandbook
           Inputs.handbookText).
  vm_compute. reflexivity.
Defined.


(* ================================================================== *)
(** * More about the prompt and the chat turn *)
(* ================================================================== *)

Lemma searchSimilarChunks_length (calculateCosineSimilarity : vector -> vector -> Q)
      (db : DB) (embedding : vector) (limit : nat) :
  (List.length (MongoStorage.searchSimilarChunks calculateCosineSimilarity db
                  embedding (Z.of_nat limit)) <= limit)%nat.
Proof.
  destruct (search_ranking calculateCosineSimilarity db embedding)
    as (ranked & _ & _ & Hcut & _).
  rewrite Hcut. apply firstn_le_length.
Qed.

Lemma appendExcerpts_numbered (contextChunks : list MongoStorage.PopulatedChunk) :
  forall i acc,
    OpenAI.appendExcerpts contextChunks i acc
    = acc ++ concat (map (fun entry =>
                            OpenAI.excerpt (fst entry)
                              (DocumentChunk.content (MongoStorage.chunk (snd entry))))
                         (combine (seq i (List.length contextChunks)) contextChunks)).
Proof.
  induction contextChunks as [|c rest IH]; intros i acc; simpl.
  - now rewrite app_nil_r.
  - rewrite IH. now rewrite <- app_assoc.
Qed.

(** X20.  With at least one chunk the system instruction is the
    instruction to answer from the excerpts only, followed by one excerpt
    per chunk in the order of the chunks, the excerpt of the chunk of
    index [i] being headed [Document excerpt i+1:] and holding its
    content between a line feed and two line feeds. *)
Theorem contextText_numbers_the_excerpts
        (contextChunks : list MongoStorage.PopulatedChunk) :
  contextChunks <> [] ->
  OpenAI.contextText contextChunks
  = OpenAI.groundedInstruction
    ++ concat
         (map (fun entry =>
                 lit "Document excerpt " ++ numberToString (fst entry + 1)
                 ++ lit ":" ++ [LF]
                 ++ DocumentChunk.content (MongoStorage.chunk (snd entry))
                 ++ [LF; LF])
              (combine (seq 0 (List.length contextChunks)) contextChunks)).
Proof.
  intros Hne. unfold OpenAI.contextText.
  destruct contextChunks as [|c rest]; [contradiction|].
  cbn [List.length Nat.ltb Nat.leb]. apply appendExcerpts_numbered.
Qed.

Lemma contextText_numbers_the_excerpts_witness :
  OpenAI.contextText (MongoStorage.findEmbedded Inputs.library)
  = OpenAI.groundedInstruction
    ++ (lit "Document excerpt 1:" ++ [LF] ++ lit "Buy milk." ++ [LF; LF])
    ++ (lit "Document excerpt 2:" ++ [LF] ++ lit "Then wait." ++ [LF; LF]).
Proof.
  rewrite (contextText_numbers_the_excerpts
             (MongoStorage.findEmbedded Inputs.library)); [|discriminate].
  vm_compute. reflexivity.
Defined.

Section ChatTurnMore.
Variable calculateCosineSimilarity : vector -> vector -> Q.
Variable embeddings_create : jsstring -> option vector.
Variable chat_completions_create : OpenAI.CompletionRequest -> option jsstring.

(** X21.  A turn with a content that is not empty, an embedding and a
    completion that succeed answers 200 with the assistant message and
    the number of chunks used, which is at most 5; the stored
    conversation is the earlier one followed by the user message and the
    assistant message, in this order; documents and chunks are untouched;
    and the calls were made in the order save, embedding, completion,
    save. *)
Theorem successful_turn_saves_both_messages
        (content : jsstring) (nowUser nowAssistant : Z) (db : DB)
        (embedding : vector) (reply : jsstring) :
  content <> [] ->
  embeddings_create content = Some embedding ->
  let userMessage := Message.mk user content nowUser in
  let assistantMessage := Message.mk assistant reply nowAssistant in
  let db1 := snd (MongoStorage.createMessage user content nowUser db) in
  let similarChunks :=
    MongoStorage.searchSimilarChunks calculateCosineSimilarity db1 embedding 5 in
  let request :=
    OpenAI.completionRequest
      (map Routes.formatMessage (MongoStorage.getMessages db1)) similarChunks in
  chat_completions_create request = Some reply ->
  let out :=
    Routes.postChat calculateCosineSimilarity embeddings_create
      chat_completions_create content nowUser nowAssistant db in
  fst (fst out)
  = Routes.mkResponse 200
      (Routes.ChatBody assistantMessage (Z.of_nat (List.length similarChunks))) /\
  (List.length similarChunks <= 5)%nat /\
  messages (snd (fst out)) = messages db ++ [userMessage; assistantMessage] /\
  documents (snd (fst out)) = documents db /\
  chunks (snd (fst out)) = chunks db /\
  snd out = [Routes.SavedMessage userMessage; Routes.EmbeddingCall content;
             Routes.CompletionCall request; Routes.SavedMessage assistantMessage].
Proof.
  intros Hne Hemb userMessage assistantMessage db1 similarChunks request Hgen out.
  subst out. unfold Routes.postChat.
  destruct content as [|ch content']; [contradiction|].
  set (content := ch :: content') in *.
  cbn [MongoStorage.createMessage]. fold userMessage.
  unfold OpenAI.generateEmbedding, OpenAI.generateChatResponse. rewrite Hemb.
  unfold request, similarChunks, db1 in Hgen.
  cbn [MongoStorage.createMessage snd] in Hgen. fold userMessage in Hgen.
  rewrite Hgen. cbn [fst snd documents chunks messages].
  repeat split; auto.
  - apply (searchSimilarChunks_length calculateCosineSimilarity db1 embedding 5).
  - now rewrite <- app_assoc.
Qed.

(** X22.  After the conversation is cleared nothing of it is left while
    documents and chunks stay, and in the next turn the completion
    request holds the system message and the new user message only. *)
Theorem turn_after_reset_starts_fresh
        (content : jsstring) (nowUser nowAssistant : Z) (db : DB) :
  MongoStorage.getMessages (MongoStorage.clearMessages db) = [] /\
  documents (MongoStorage.clearMessages db) = documents db /\
  chunks (MongoStorage.clearMessages db) = chunks db /\
  forall request,
    In (Routes.CompletionCall request)
       (snd (Routes.postChat calculateCosineSimilarity embeddings_create
               chat_completions_create content nowUser nowAssistant
               (MongoStorage.clearMessages db))) ->
    exists instruction,
      OpenAI.messages request
      = [OpenAI.mkChat system instruction; OpenAI.mkChat user content].
Proof.
  repeat split; auto.
  unfold Routes.postChat.
  destruct content as [|ch content']; [intros request []|].
  set (content := ch :: content').
  cbn [MongoStorage.createMessage MongoStorage.clearMessages messages app].
  unfold OpenAI.generateEmbedding, OpenAI.generateChatResponse.
  destruct (embeddings_create content) as [embedding|].
  2:{ cbn. intros request [H|[H|[]]]; discriminate. }
  destruct (chat_completions_create _) as [reply|]; cbn;
    intros request H;
    repeat (destruct H as [H|H]; try discriminate; try contradiction);
    inversion H; subst request; eexists; reflexivity.
Qed.
End ChatTurnMore.

Lemma successful_turn_saves_both_messages_witness :
  messages
    (snd (fst (Routes.postChat Inputs.dot Inputs.unitEmbedding Inputs.echoCompletion
                 (lit "hello") 1 2 Inputs.library)))
  = [Message.mk user (lit "hello") 1;
     Message.mk assistant (lit "I can only answer from your documents.") 2].
Proof.
  destruct (successful_turn_saves_both_messages Inputs.dot Inputs.unitEmbedding
              Inputs.echoCompletion (lit "hello") 1 2 Inputs.library
              [1%Q; 0%Q] (lit "I can only answer from your documents."))
    as (_ & _ & H & _).
  - discriminate.
  - reflexivity.
  - reflexivity.
  - exact H.
Defined.

Lemma turn_after_reset_starts_fresh_witness :
  exists instruction,
    OpenAI.messages
      (OpenAI.completionRequest [OpenAI.mkChat user (lit "hello")]
         (MongoStorage.searchSimilarChunks Inputs.dot
            (snd (MongoStorage.createMessage user (lit "hello") 1
                    (MongoStorage.clearMessages Inputs.library)))
            [1%Q; 0%Q] 5))
    = [OpenAI.mkChat system instruction; OpenAI.mkChat user (lit "hello")].
Proof.
  apply (proj2 (proj2 (proj2
           (turn_after_reset_starts_fresh Inputs.dot Inputs.unitEmbedding
              Inputs.echoCompletion (lit "hello") 1 2 Inputs.library)))).
  right. right. left. reflexivity.
Defined.
